(** * deepin-anything: the backend of the file-change observer service

    A shallow embedding of [src/server/backend/anythingbackend.cpp]:
    the plugin registry ([interfaceList], [addPlugin], [removePlugins]),
    the handlers installed on the plugin loader by [monitorStart], the
    mount-table relay [writeMountInfo] and the start-up handshake
    [init_connection].

    The C++ code works on process-wide mutable state and calls into Qt,
    the kernel and the plugin loader.  The mutable state is the record
    [world], threaded explicitly through every function; what the outside
    answers (uname, file contents, [QThread::wait], the plugin factory,
    D-Bus) is the record [env], read by the functions and never written.
    Every observable action is appended to the [trace] of the world, in
    program order. *)

From Stdlib Require Import ZArith Ascii String List Lia.
From Stdlib.Strings Require Import Byte.
From stdpp Require Import base decidable option list strings gmap sets.

Open Scope Z_scope.
Open Scope string_scope.
Open Scope list_scope.

#[local] Set Warnings "-clear-no-such-hyp".

(** ** Qt strings: [QString::split] and [QString::toInt] *)

Module QString.

(** [QString::split(sep)] with the default [Qt::KeepEmptyParts]: the
    pieces between the separators, empty pieces included; a string
    without separator is returned whole, as a one-element list. *)
Fixpoint split (sep : ascii) (s : string) : list string :=
  match s with
  | EmptyString => [EmptyString]
  | String c rest =>
      if Ascii.eqb c sep then EmptyString :: split sep rest
      else match split sep rest with
           | [] => [String c EmptyString]
           | piece :: pieces => String c piece :: pieces
           end
  end.

(** [QChar::isSpace] on ASCII: space, and the controls 9 to 13. *)
Definition isSpace (c : ascii) : bool :=
  let n := nat_of_ascii c in
  Nat.eqb n 32 || (Nat.leb 9 n && Nat.leb n 13).

Definition isDigit (c : ascii) : bool :=
  let n := nat_of_ascii c in Nat.leb 48 n && Nat.leb n 57.

Fixpoint trimLeft (s : string) : string :=
  match s with
  | String c rest => if isSpace c then trimLeft rest else s
  | EmptyString => EmptyString
  end.

Fixpoint trimRight (s : string) : string :=
  match s with
  | EmptyString => EmptyString
  | String c rest =>
      match trimRight rest with
      | EmptyString => if isSpace c then EmptyString else String c EmptyString
      | r => String c r
      end
  end.

Definition trimmed (s : string) : string := trimRight (trimLeft s).

(** The value of a run of decimal digits, most significant first. *)
Fixpoint digitsValue (acc : Z) (s : string) : option Z :=
  match s with
  | EmptyString => Some acc
  | String c rest =>
      if isDigit c
      then digitsValue (10 * acc + (Z.of_nat (nat_of_ascii c) - 48)) rest
      else None
  end.

Definition unsignedValue (s : string) : option Z :=
  match s with
  | EmptyString => None
  | _ => digitsValue 0 s
  end.

Definition INT_MIN : Z := - 2 ^ 31.
Definition INT_MAX : Z := 2 ^ 31 - 1.

(** The conversion behind [QString::toInt(ok, 10)]: surrounding white
    space is skipped, one sign is accepted, the rest must be a
    non-empty run of decimal digits, and the value must fit a 32-bit
    [int].  [None] is the case in which Qt sets [*ok = false]. *)
Definition toIntOk (s : string) : option Z :=
  let body := trimmed s in
  let v :=
    match body with
    | String c digits =>
        if Ascii.eqb c "+" then unsignedValue digits
        else if Ascii.eqb c "-" then Z.opp <$> unsignedValue digits
        else unsignedValue body
    | EmptyString => None
    end in
  match v with
  | Some n =>
      if Z.leb INT_MIN n && Z.leb n INT_MAX then Some n else None
  | None => None
  end.

(** [QString::toInt()]: "Returns 0 if the conversion fails." *)
Definition toInt (s : string) : Z := default 0 (toIntOk s).

End QString.


(** ** The data model *)

(** A [DASInterface*] and a [QPluginLoader*] are heap objects; only their
    identity matters here.  The [QThread] that [addPlugin] creates is a
    child of its interface and is reached through it
    ([value.second->thread()]), so a thread is named by its interface. *)
Definition DASInterface : Type := nat.
Definition QPluginLoader : Type := nat.

(** The three signals of [Server] that [addPlugin] connects. *)
Inductive ServerSignal : Type := fileCreated | fileDeleted | fileRenamed.

(** The three signals of [DASPluginLoader] that [monitorStart] connects. *)
Inductive LoaderSignal : Type := pluginRemoved | pluginModified | pluginAdded.

Inductive WriteMountInfoError : Type :=
| Success
| UnameFail
| UnrecognizedVersion
| OpenSrcFileFail
| OpenDstFileFail
| WriteDstFileFail.

(** The enumerators as the [int] that [writeMountInfo] returns. *)
Definition error_code (r : WriteMountInfoError) : Z :=
  match r with
  | Success => 0
  | UnameFail => 1
  | UnrecognizedVersion => 2
  | OpenSrcFileFail => 3
  | OpenDstFileFail => 4
  | WriteDstFileFail => 5
  end.

(** [QIODevice::OpenModeFlag], the flags the source uses. *)
Inductive OpenModeFlag : Type := ReadOnly | WriteOnly | Text | ExistingOnly.

(** What a [write] on the relay channel does with the bytes it is given. *)
Inductive write_policy : Type :=
| TakesAll
| TakesAtMost (n : nat)
| Fails.

(** The file behind [/dev/driver_set_info]: whether it can be opened for
    writing, what its [write] does, and the bytes it has received. *)
Record device : Type := Device {
  dev_writable : bool;
  dev_policy : write_policy;
  dev_received : list byte
}.

Definition mountinfo_path : string := "/proc/self/mountinfo".
Definition drv_path : string := "/dev/driver_set_info".

(** What the program does, in program order.  [qWarning] and [qDebug]
    carry the items streamed into them. *)
Inductive event : Type :=
| qWarning (items : list string)
| qDebug (items : list string)
| ThreadStart (h : DASInterface)
| ThreadQuit (h : DASInterface)
| ThreadWait (h : DASInterface) (finished : bool)
| ListAppend (key : string) (h : DASInterface)
| ListRemoveAt (i : nat)
| Connect (sig : ServerSignal) (h : DASInterface)
| Disconnect (h : DASInterface)
| DeleteLater (h : DASInterface)
| FileOpen (path : string) (ok : bool)
| FileReadAll (path : string) (size : nat)
| FileWrite (path : string) (data : list byte) (written : Z)
| FileClose (path : string)
| LoaderRemove (l : QPluginLoader)
| LoaderReload (l : QPluginLoader) (reloaded : option QPluginLoader)
| LoaderConnect (sig : LoaderSignal)
| ServerNew
| ServerStart
| RegisterAppender
| RegisterCategoryAppender (category : string)
| DBusRegisterService (ok : bool)
| DBusRegisterObject (ok : bool)
| SetMessagePattern
| EnterBackendRun
| EnterMonitorStart.

(** The mutable state of the process. *)
Record world : Type := World {
  hasconnected : bool;
  (** [server]: [None] is the null pointer, [Some r] a [Server] whose
      [isRunning()] is [r].  [isRunning()] is the state of the server's
      thread: the program sets it by [start()]; the thread ending later
      is a step of the outside, [server_thread_ends]. *)
  server : option bool;
  (** [static QList<QPair<QString, DASInterface*>> interfaceList] *)
  interfaceList : list (string * DASInterface);
  (** the signal-to-slot connections from the server to the interfaces *)
  connections : list (ServerSignal * DASInterface);
  (** the handlers connected to [DASFactory::loader()] *)
  loaderSlots : list LoaderSignal;
  (** the identity the next constructed object gets *)
  nextObject : nat;
  (** objects on which [deleteLater()] was called *)
  deferredDelete : list DASInterface;
  (** [/dev/driver_set_info]; [None] when the path does not exist *)
  driver_set_info : option device;
  (** whether [com.deepin.anything] is registered on the system bus *)
  busService : bool;
  trace : list event
}.

(** The two reads of [value.second] that [removePlugins] makes after
    [interfaceList.removeAt(i)]: the argument of [server->disconnect]
    and the receiver of [deleteLater()]. *)
Inductive read_site : Type := AtDisconnect | AtDeleteLater.

(** What the outside answers when the program asks. *)
Record env : Type := Env {
  (** [uname(&uts)]: [None] when it does not return 0, else [uts.release] *)
  uname : option string;
  (** [/proc/self/mountinfo]: [None] when it cannot be opened for reading,
      else what [readAll()] returns *)
  proc_self_mountinfo : option (list byte);
  (** [t->wait()] on the thread of an interface, after [t->quit()] *)
  thread_wait : DASInterface -> bool;
  (** whether [DASFactory::create(key)] returns an object *)
  factory_creates : string -> bool;
  (** [DASFactory::keys()] *)
  factory_keys : list string;
  (** [DASFactory::loader()->reloadLoader(loader)]; [None] is null *)
  reloadLoader : QPluginLoader -> option QPluginLoader;
  (** [DASFactory::loader()->getKeysByLoader(loader)] *)
  getKeysByLoader : QPluginLoader -> list string;
  (** [LFTManager::logCategoryList()] *)
  logCategoryList : list string;
  (** the results of [registerService] and [registerObject] *)
  registerService : bool;
  registerObject : bool;
  (** what a read of [value.second] yields once [removeAt(i)] has
      removed the list element that the reference [value] was bound to.
      The reference is invalid then and the program does not determine
      what is read; the answer may depend on the place of the read, the
      index [i], the list as the removal left it, and the pair the
      element held *)
  dangling_second :
    read_site → nat → list (string * DASInterface) →
    string * DASInterface → DASInterface
}.

(** Two answers to a read through the invalid reference: the memory of
    the removed element still holds its pair; or the list is stored
    contiguously and the slot [i] holds what has moved into it, or
    something that is no interface of the list when [i] is past the
    end. *)
Definition reads_removed_pair (site : read_site) (i : nat)
  (l : list (string * DASInterface)) (value : string * DASInterface)
  : DASInterface := value.2.

Definition reads_slot (past_end : DASInterface) (site : read_site) (i : nat)
  (l : list (string * DASInterface)) (value : string * DASInterface)
  : DASInterface :=
  match l !! i with
  | Some moved => moved.2
  | None => past_end
  end.

(** ** Updating the world, one field at a time *)

Definition emit (ev : event) (w : world) : world :=
  World (hasconnected w) (server w) (interfaceList w) (connections w)
        (loaderSlots w) (nextObject w) (deferredDelete w)
        (driver_set_info w) (busService w) (trace w ++ [ev]).

Definition set_hasconnected (b : bool) (w : world) : world :=
  World b (server w) (interfaceList w) (connections w)
        (loaderSlots w) (nextObject w) (deferredDelete w)
        (driver_set_info w) (busService w) (trace w).

Definition set_server (s : option bool) (w : world) : world :=
  World (hasconnected w) s (interfaceList w) (connections w)
        (loaderSlots w) (nextObject w) (deferredDelete w)
        (driver_set_info w) (busService w) (trace w).

Definition set_interfaceList (l : list (string * DASInterface)) (w : world)
  : world :=
  World (hasconnected w) (server w) l (connections w)
        (loaderSlots w) (nextObject w) (deferredDelete w)
        (driver_set_info w) (busService w) (trace w).

Definition set_connections (c : list (ServerSignal * DASInterface))
  (w : world) : world :=
  World (hasconnected w) (server w) (interfaceList w) c
        (loaderSlots w) (nextObject w) (deferredDelete w)
        (driver_set_info w) (busService w) (trace w).

Definition set_loaderSlots (s : list LoaderSignal) (w : world) : world :=
  World (hasconnected w) (server w) (interfaceList w) (connections w)
        s (nextObject w) (deferredDelete w)
        (driver_set_info w) (busService w) (trace w).

Definition set_nextObject (n : nat) (w : world) : world :=
  World (hasconnected w) (server w) (interfaceList w) (connections w)
        (loaderSlots w) n (deferredDelete w)
        (driver_set_info w) (busService w) (trace w).

Definition set_deferredDelete (d : list DASInterface) (w : world) : world :=
  World (hasconnected w) (server w) (interfaceList w) (connections w)
        (loaderSlots w) (nextObject w) d
        (driver_set_info w) (busService w) (trace w).

Definition set_driver_set_info (d : option device) (w : world) : world :=
  World (hasconnected w) (server w) (interfaceList w) (connections w)
        (loaderSlots w) (nextObject w) (deferredDelete w)
        d (busService w) (trace w).

Definition set_busService (b : bool) (w : world) : world :=
  World (hasconnected w) (server w) (interfaceList w) (connections w)
        (loaderSlots w) (nextObject w) (deferredDelete w)
        (driver_set_info w) b (trace w).

(** The process as it starts: nothing connected, no server, an empty
    registry.  The relay channel and the bus are what the system has. *)
Definition start_world (drv : option device) (bus : bool) : world :=
  World false None [] [] [] 0%nat [] drv bus [].

(** ** The plugin registry *)

(** Modelled from the spec: [DASFactory::create] is declared in
    dasfactory.h, which is not among the sources.  The spec gives it as
    [create(key) -> handle-or-null], the handle being a freshly
    constructed object; here the object gets the next unused identity. *)
Definition DASFactory_create (e : env) (key : string) (w : world)
  : option DASInterface * world :=
  if factory_creates e key
  then (Some (nextObject w), set_nextObject (S (nextObject w)) w)
  else (None, w).

(** [QObject::connect(server, signal, interface, slot)] *)
Definition connect (sig : ServerSignal) (interface : DASInterface)
  (w : world) : world :=
  emit (Connect sig interface)
       (set_connections (connections w ++ [(sig, interface)]) w).

(** [server->disconnect(receiver)]: every connection from the server to
    the receiver is removed. *)
Definition disconnect (receiver : DASInterface) (w : world) : world :=
  emit (Disconnect receiver)
       (set_connections
          (filter (λ c : ServerSignal * DASInterface, c.2 ≠ receiver)
                  (connections w)) w).

Definition deleteLater (h : DASInterface) (w : world) : world :=
  emit (DeleteLater h) (set_deferredDelete (deferredDelete w ++ [h]) w).

(** [AnythingBackend::addPlugin].  Every caller passes the backend's own
    [server], so the connections are those of the one server. *)
Definition addPlugin (e : env) (key : string) (w : world) : world :=
  match DASFactory_create e key w with
  | (None, w) => emit (qWarning ["interface is null, key:"; key]) w
  | (Some interface, w) =>
      let w := emit (ThreadStart interface) w in
      let w := emit (ListAppend key interface)
                 (set_interfaceList (interfaceList w ++ [(key, interface)]) w) in
      let w := connect fileCreated interface w in
      let w := connect fileDeleted interface w in
      connect fileRenamed interface w
  end.

(** The loop of [AnythingBackend::removePlugins], from index [i] on.
    [interfaceList w !! i] is [None] exactly when [i < interfaceList.count()]
    is false, which is how the loop ends.  [value] is a reference to the
    list element at [i].  Up to [removeAt(i)] a read of it gets the pair
    of that element.  [removeAt(i)] removes the element and leaves the
    reference invalid: the two reads of [value.second] that follow, for
    [disconnect] and for [deleteLater], get what [dangling_second]
    answers, which need not be the interface of the removed entry.  An
    iteration that removes the entry leaves [i] as it is ([--i] undone
    by [++i]).  [fuel] bounds the number of iterations;
    [removePlugins_loop_sweep] shows that the number of entries is
    enough for the loop to end by its own test. *)
Fixpoint removePlugins_loop (fuel : nat) (e : env) (keys : list string)
  (i : nat) (w : world) : world :=
  match fuel with
  | O => w
  | S fuel =>
      match interfaceList w !! i with
      | None => w
      | Some value =>
          if negb (bool_decide (value.1 ∈ keys))
          then removePlugins_loop fuel e keys (S i) w
          else
            let t := value.2 in
            let w := emit (ThreadQuit t) w in
            if negb (thread_wait e t) then
              let w := emit (ThreadWait t false) w in
              let w := emit (qWarning ["failed on wait thread to quit, key:";
                                       value.1]) w in
              removePlugins_loop fuel e keys (S i) w
            else
              let w := emit (ThreadWait t true) w in
              let w := emit (ListRemoveAt i)
                         (set_interfaceList (delete i (interfaceList w)) w) in
              let w := disconnect
                         (dangling_second e AtDisconnect i (interfaceList w)
                            value) w in
              let w := deleteLater
                         (dangling_second e AtDeleteLater i (interfaceList w)
                            value) w in
              removePlugins_loop fuel e keys i w
      end
  end.

(** [AnythingBackend::removePlugins] *)
Definition removePlugins (e : env) (keys : list string) (w : world) : world :=
  removePlugins_loop (length (interfaceList w)) e keys 0 w.

(** The handlers that [monitorStart] connects to the plugin loader. *)
Definition on_pluginRemoved (e : env) (loader : QPluginLoader)
  (keys : list string) (w : world) : world :=
  let w := removePlugins e keys w in
  emit (LoaderRemove loader) w.

Definition on_pluginModified (e : env) (loader : QPluginLoader)
  (keys : list string) (w : world) : world :=
  let w := removePlugins e keys w in
  let reloaded := reloadLoader e loader in
  let w := emit (LoaderReload loader reloaded) w in
  match reloaded with
  | Some loader =>
      foldl (λ w key, addPlugin e key w) w (getKeysByLoader e loader)
  | None => w
  end.

Definition on_pluginAdded (e : env) (key : string) (w : world) : world :=
  addPlugin e key w.

(** ** The mount-table relay *)

Definition is_ExistingOnly (f : OpenModeFlag) : bool :=
  match f with
  | ExistingOnly => true
  | _ => false
  end.

Inductive open_result : Type :=
| Opened (d : device)
| OpenFailed (f : option device).

(** [QFile::open] for writing.  With [ExistingOnly] a missing file makes
    the call fail; without it the file is created. *)
Definition QFile_open (mode : list OpenModeFlag) (f : option device)
  : open_result :=
  match f with
  | Some d => if dev_writable d then Opened d else OpenFailed f
  | None =>
      if existsb is_ExistingOnly mode then OpenFailed None
      else Opened (Device true TakesAll [])
  end.

(** [QFile::write(data, size)]: the number of bytes written, or -1. *)
Definition QFile_write (d : device) (data : list byte) : Z * device :=
  match dev_policy d with
  | TakesAll =>
      (Z.of_nat (length data),
       Device (dev_writable d) (dev_policy d) (dev_received d ++ data))
  | TakesAtMost n =>
      (Z.of_nat (Nat.min n (length data)),
       Device (dev_writable d) (dev_policy d) (dev_received d ++ take n data))
  | Fails => (-1, d)
  end.

(** The test [ver_x >= 6 || (5 == ver_x && ver_y >= 10)]. *)
Definition version_gate (ver_x ver_y : Z) : bool :=
  Z.leb 6 ver_x || (Z.eqb 5 ver_x && Z.leb 10 ver_y).

(** [AnythingBackend::writeMountInfo] *)
Definition writeMountInfo (e : env) (w : world)
  : WriteMountInfoError * world :=
  match uname e with
  | None => (UnameFail, emit (qWarning ["uname fail"]) w)
  | Some release =>
      let w := emit (qDebug ["the kernel version: "; release]) w in
      let ver_list := QString.split "." release in
      if bool_decide (length ver_list < 3)%nat then
        (UnrecognizedVersion,
         emit (qWarning ["unrecognized version format, expect x.y.z"]) w)
      else
        let ver_x := QString.toInt (nth 0 ver_list "") in
        let ver_y := QString.toInt (nth 1 ver_list "") in
        if version_gate ver_x ver_y then
          match proc_self_mountinfo e with
          | None =>
              let w := emit (FileOpen mountinfo_path false) w in
              (OpenSrcFileFail,
               emit (qWarning ["open file "; mountinfo_path; " failed"]) w)
          | Some mount_info =>
              let w := emit (FileOpen mountinfo_path true) w in
              let w := emit (FileReadAll mountinfo_path (length mount_info)) w in
              let w := emit (FileClose mountinfo_path) w in
              match QFile_open [ExistingOnly; WriteOnly; Text]
                               (driver_set_info w) with
              | OpenFailed f =>
                  let w := emit (FileOpen drv_path false)
                             (set_driver_set_info f w) in
                  (OpenDstFileFail,
                   emit (qWarning ["open file "; drv_path; " failed"]) w)
              | Opened d =>
                  let w := emit (FileOpen drv_path true) w in
                  let '(written, d) := QFile_write d mount_info in
                  let w := emit (FileWrite drv_path mount_info written)
                             (set_driver_set_info (Some d) w) in
                  if negb (Z.eqb written (Z.of_nat (length mount_info))) then
                    (WriteDstFileFail,
                     emit (qWarning ["write file "; drv_path; " failed"]) w)
                  else
                    let w := emit (FileClose drv_path) w in
                    (Success, emit (qDebug ["write mountinfo success"]) w)
              end
          end
        else (Success, w)
  end.

(** ** Start-up *)

(** [AnythingBackend::backendRun]: the log appenders, then the D-Bus
    registration.  The result is 0, 2 or 3. *)
Definition backendRun (e : env) (w : world) : Z * world :=
  let w := emit EnterBackendRun w in
  let w := emit RegisterAppender w in
  let w := emit RegisterAppender w in
  let w := foldl (λ w c, emit (RegisterCategoryAppender c)
                           (emit (RegisterCategoryAppender c) w))
                 w (logCategoryList e) in
  if negb (busService w) then
    if negb (registerService e) then
      let w := emit (DBusRegisterService false) w in
      (2, emit (qWarning ["Cannot register the com.deepin.anything service."]) w)
    else
      let w := emit (DBusRegisterService true) (set_busService true w) in
      if negb (registerObject e) then
        let w := emit (DBusRegisterObject false) w in
        (3, emit (qWarning ["Cannot register to the D-Bus object: /com/deepin/anything"]) w)
      else (0, emit (DBusRegisterObject true) w)
  else (0, emit (qDebug ["deepin-anything-backend is running"]) w).

(** [AnythingBackend::monitorStart] *)
Definition monitorStart (e : env) (w : world) : Z * world :=
  let w := emit EnterMonitorStart w in
  let w := emit SetMessagePattern w in
  let '(mount_ret, w) := writeMountInfo e w in
  let w :=
    if negb (Z.eqb (error_code mount_ret) (error_code Success))
    then emit (qDebug ["write mountinfo failed, should try again latter."]) w
    else w in
  let w :=
    match server w with
    | None => emit ServerNew (set_server (Some false) w)
    | Some _ => w
    end in
  match server w with
  | Some false =>
      let w := foldl (λ w key, addPlugin e key w) w (factory_keys e) in
      let w := emit (LoaderConnect pluginRemoved)
                 (set_loaderSlots (loaderSlots w ++ [pluginRemoved]) w) in
      let w := emit (LoaderConnect pluginModified)
                 (set_loaderSlots (loaderSlots w ++ [pluginModified]) w) in
      let w := emit (LoaderConnect pluginAdded)
                 (set_loaderSlots (loaderSlots w ++ [pluginAdded]) w) in
      (0, emit ServerStart (set_server (Some true) w))
  | _ => (0, w)
  end.

(** [AnythingBackend::init_connection] *)
Definition init_connection (e : env) (w : world) : Z * world :=
  if hasconnected w then (0, w)
  else
    let '(r, w) := backendRun e w in
    if Z.eqb r 0 then
      let '(_, w) := monitorStart e w in
      (0, set_hasconnected true w)
    else (-1, w).

(** ** Sequences of registry operations *)

Inductive op : Type :=
| OpAdd (key : string)
| OpRemove (keys : list string).

(** One operation, in the environment it meets. *)
Definition step (w : world) (eo : env * op) : world :=
  match eo.2 with
  | OpAdd key => addPlugin eo.1 key w
  | OpRemove keys => removePlugins eo.1 keys w
  end.

Definition run (ops : list (env * op)) (w : world) : world := foldl step w ops.

(** The keys of the live entries, as a list and as a set. *)
Definition live_keys (w : world) : list string := (interfaceList w).*1.

Definition live_key_set (w : world) : gset string := list_to_set (live_keys w).

(** The entry is taken out by [removePlugins e keys]: its key is asked
    for and its thread ends. *)
Definition taken_out (e : env) (keys : list string)
  (value : string * DASInterface) : bool :=
  bool_decide (value.1 ∈ keys) && thread_wait e value.2.

(** The keys an operation sequence asks to add, in order. *)
Fixpoint add_requests (ops : list (env * op)) : list string :=
  match ops with
  | [] => []
  | (_, OpAdd key) :: ops => key :: add_requests ops
  | (_, OpRemove _) :: ops => add_requests ops
  end.

(** The set of keys added: those whose [addPlugin] got an interface. *)
Fixpoint added (ops : list (env * op)) : gset string :=
  match ops with
  | [] => ∅
  | (e, OpAdd key) :: ops =>
      (if factory_creates e key then {[ key ]} else ∅) ∪ added ops
  | (_, OpRemove _) :: ops => added ops
  end.

(** The set of keys successfully removed by a sequence that starts in
    [w]: the keys of the entries that are live when a remove asks for
    them and whose thread ends. *)
Fixpoint removed (ops : list (env * op)) (w : world) : gset string :=
  match ops with
  | [] => ∅
  | eo :: ops =>
      match eo.2 with
      | OpAdd _ => ∅
      | OpRemove keys =>
          list_to_set (filter (λ v, taken_out eo.1 keys v) (interfaceList w)).*1
      end ∪ removed ops (step w eo)
  end.

(** Every add of the sequence meets a registry without its key. *)
Fixpoint adds_unregistered (ops : list (env * op)) (w : world) : Prop :=
  match ops with
  | [] => True
  | eo :: ops =>
      match eo.2 with
      | OpAdd key => key ∉ live_keys w
      | OpRemove _ => True
      end ∧ adds_unregistered ops (step w eo)
  end.

(** ** The loop of [removePlugins], entry by entry

    The same iterations as [removePlugins_loop], by recursion on the
    entries still to visit: [rest] is the registry from index [i] on. *)
Fixpoint sweep (e : env) (keys : list string) (i : nat)
  (rest : list (string * DASInterface)) (w : world) : world :=
  match rest with
  | [] => w
  | value :: rest =>
      if negb (bool_decide (value.1 ∈ keys)) then sweep e keys (S i) rest w
      else
        let w := emit (ThreadQuit value.2) w in
        if negb (thread_wait e value.2) then
          let w := emit (ThreadWait value.2 false) w in
          let w := emit (qWarning ["failed on wait thread to quit, key:";
                                   value.1]) w in
          sweep e keys (S i) rest w
        else
          let w := emit (ThreadWait value.2 true) w in
          let w := emit (ListRemoveAt i)
                     (set_interfaceList (delete i (interfaceList w)) w) in
          let w := disconnect
                     (dangling_second e AtDisconnect i (interfaceList w)
                        value) w in
          let w := deleteLater
                     (dangling_second e AtDeleteLater i (interfaceList w)
                        value) w in
          sweep e keys i rest w
  end.

(** What [removePlugins] does for one entry that it takes out, found at
    index [i]: [disconnected] and [released] are what the two reads
    after [removeAt(i)] yield. *)
Definition removal_events (i : nat) (value : string * DASInterface)
  (disconnected released : DASInterface) : list event :=
  [ThreadQuit value.2; ThreadWait value.2 true; ListRemoveAt i;
   Disconnect disconnected; DeleteLater released].

(** What [removePlugins] does for one entry whose thread does not end. *)
Definition retention_events (value : string * DASInterface) : list event :=
  [ThreadQuit value.2; ThreadWait value.2 false;
   qWarning ["failed on wait thread to quit, key:"; value.1]].

(** The events of the loop when the entries [rest] are still to visit
    and [before] are the entries in front of them, visited and kept:
    the index is the length of [before]. *)
Fixpoint sweep_events (e : env) (keys : list string)
  (before rest : list (string * DASInterface)) : list event :=
  match rest with
  | [] => []
  | value :: rest =>
      if negb (bool_decide (value.1 ∈ keys))
      then sweep_events e keys (before ++ [value]) rest
      else if negb (thread_wait e value.2)
      then retention_events value
           ++ sweep_events e keys (before ++ [value]) rest
      else removal_events (length before) value
             (dangling_second e AtDisconnect (length before)
                (before ++ rest) value)
             (dangling_second e AtDeleteLater (length before)
                (before ++ rest) value)
           ++ sweep_events e keys before rest
  end.

(** ** Vocabulary for the statements *)

(** The events appended between two worlds of one execution. *)
Definition events_since (w w' : world) : list event :=
  drop (length (trace w)) (trace w').

(** The number of entries of a run of the registry that [removePlugins]
    keeps: by how much the index has advanced after visiting them. *)
Definition kept (e : env) (keys : list string)
  (l : list (string * DASInterface)) : nat :=
  length (filter (λ v, negb (taken_out e keys v)) l).

(** Every interface of the registry was constructed before now. *)
Definition handles_allocated (w : world) : Prop :=
  ∀ h : DASInterface, h ∈ (interfaceList w).*2 → (h < nextObject w)%nat.

(** The entries that adding the keys [ks] in order appends, the first
    constructed object being number [n]. *)
Fixpoint fresh_entries (e : env) (n : nat) (ks : list string)
  : list (string * DASInterface) :=
  match ks with
  | [] => []
  | key :: ks =>
      if factory_creates e key
      then (key, n) :: fresh_entries e (S n) ks
      else fresh_entries e n ks
  end.

(** An environment for examples: a kernel release, a mount table, and
    the answers of [QThread::wait], the factory and the loader.  A read
    through the invalid reference finds the removed pair. *)
Definition example_env (release : option string)
  (mounts : option (list byte)) (wait : DASInterface → bool)
  (creates : string → bool) (reload : QPluginLoader → option QPluginLoader)
  (exposed : list string) : env :=
  Env release mounts wait creates exposed reload (λ _, exposed) [] true true
      reads_removed_pair.

(** A registry with the one plugin [p], and one with [p] and [q], as
    [addPlugin] builds them from the start of the process. *)
Definition willing_env (wait : DASInterface → bool) : env :=
  example_env None None wait (λ _, true) (λ _, None) [].

(** The same, with the list stored contiguously: a read through the
    invalid reference finds what slot [i] holds after the removal, and
    the object 99, which no [addPlugin] of the examples constructs,
    when slot [i] is past the end. *)
Definition slot_reading_env (wait : DASInterface → bool) : env :=
  Env None None wait (λ _, true) [] (λ _, None) (λ _, []) [] true true
      (reads_slot 99%nat).

Definition one_plugin : world :=
  addPlugin (willing_env (λ _, true)) "p" (start_world None false).

Definition two_plugins : world :=
  addPlugin (willing_env (λ _, true)) "q" one_plugin.

(** The events of adding the keys [ks] in order, the first constructed
    object being number [n]. *)
Fixpoint add_events (e : env) (n : nat) (ks : list string) : list event :=
  match ks with
  | [] => []
  | key :: ks =>
      if factory_creates e key
      then [ThreadStart n; ListAppend key n; Connect fileCreated n;
            Connect fileDeleted n; Connect fileRenamed n]
           ++ add_events e (S n) ks
      else qWarning ["interface is null, key:"; key] :: add_events e n ks
  end.

(** ** Vocabulary for the relay *)

(** [ver_x] and [ver_y] of [writeMountInfo], from the release string. *)
Definition ver_x (release : string) : Z :=
  QString.toInt (nth 0 (QString.split "." release) "").

Definition ver_y (release : string) : Z :=
  QString.toInt (nth 1 (QString.split "." release) "").

(** The release string is there, has its three components, and passes
    the version test: the relay goes on to its files. *)
Definition relay_wanted (e : env) : Prop :=
  ∃ release : string,
    uname e = Some release
    ∧ (3 ≤ length (QString.split "." release))%nat
    ∧ version_gate (ver_x release) (ver_y release) = true.

Definition is_file_event (ev : event) : bool :=
  match ev with
  | FileOpen _ _ | FileReadAll _ _ | FileWrite _ _ _ | FileClose _ => true
  | _ => false
  end.

Definition is_FileWrite (ev : event) : bool :=
  match ev with
  | FileWrite _ _ _ => true
  | _ => false
  end.

(** The channel takes [n] bytes in one [write]. *)
Definition takes (d : device) (n : nat) : Prop :=
  match dev_policy d with
  | TakesAll => True
  | TakesAtMost m => (n ≤ m)%nat
  | Fails => False
  end.

(** ** The backend as a whole *)

(** [fireAnything], the exported entry point.  [backend] is what
    [AnythingBackend::instance()] returns, [None] being the null
    pointer. *)
Definition fireAnything (e : env) (backend : option world)
  : Z * option world :=
  match backend with
  | Some w => let '(r, w) := init_connection e w in (r, Some w)
  | None => (-1, None)
  end.

(** The three connections that [addPlugin] makes for an entry. *)
Definition wires (value : string * DASInterface)
  : list (ServerSignal * DASInterface) :=
  [(fileCreated, value.2); (fileDeleted, value.2); (fileRenamed, value.2)].

(** Two worlds with the same registry: entries, connections, objects
    constructed, objects released. *)
Definition same_registry (w w' : world) : Prop :=
  interfaceList w' = interfaceList w
  ∧ connections w' = connections w
  ∧ nextObject w' = nextObject w
  ∧ deferredDelete w' = deferredDelete w.

(** The entries of the registry hang together: no interface is
    registered twice and every registered interface was constructed. *)
Definition consistent (w : world) : Prop :=
  NoDup (interfaceList w).*2 ∧ handles_allocated w.

(** The thread of the server ends: a step of the outside, after which
    [isRunning()] is false. *)
Definition server_thread_ends (w : world) : world :=
  match server w with
  | Some _ => set_server (Some false) w
  | None => w
  end.

(** What can happen to the backend: a call of one of its member
    functions or of the three handlers of the loader's signals, and the
    end of the server's thread. *)
Inductive call : Type :=
| CallInitConnection
| CallBackendRun
| CallMonitorStart
| CallWriteMountInfo
| CallAddPlugin (key : string)
| CallRemovePlugins (keys : list string)
| CallPluginAdded (key : string)
| CallPluginRemoved (loader : QPluginLoader) (keys : list string)
| CallPluginModified (loader : QPluginLoader) (keys : list string)
| ServerThreadEnds.

Definition perform (w : world) (ec : env * call) : world :=
  match ec.2 with
  | CallInitConnection => (init_connection ec.1 w).2
  | CallBackendRun => (backendRun ec.1 w).2
  | CallMonitorStart => (monitorStart ec.1 w).2
  | CallWriteMountInfo => (writeMountInfo ec.1 w).2
  | CallAddPlugin key => addPlugin ec.1 key w
  | CallRemovePlugins keys => removePlugins ec.1 keys w
  | CallPluginAdded key => on_pluginAdded ec.1 key w
  | CallPluginRemoved loader keys => on_pluginRemoved ec.1 loader keys w
  | CallPluginModified loader keys => on_pluginModified ec.1 loader keys w
  | ServerThreadEnds => server_thread_ends w
  end.

(** A sequence of such steps, each in the environment it meets. *)
Definition session (calls : list (env * call)) (w : world) : world :=
  foldl perform w calls.

(** The number of dots of a release string. *)
Fixpoint dots (s : string) : nat :=
  match s with
  | EmptyString => 0%nat
  | String c rest => if Ascii.eqb c "." then S (dots rest) else dots rest
  end.

(** The handles for which [quit] is requested, and the indices given to
    [removeAt], in the order of the events. *)
Definition quit_handles (evs : list event) : list DASInterface :=
  omap (λ ev, match ev with ThreadQuit h => Some h | _ => None end) evs.

Definition removeAt_indices (evs : list event) : list nat :=
  omap (λ ev, match ev with ListRemoveAt i => Some i | _ => None end) evs.

(** Two worlds that agree outside the registry: the flag, the server,
    the loader's handlers, the relay channel and the bus. *)
Definition same_outside_registry (w w' : world) : Prop :=
  hasconnected w' = hasconnected w
  ∧ server w' = server w
  ∧ loaderSlots w' = loaderSlots w
  ∧ driver_set_info w' = driver_set_info w
  ∧ busService w' = busService w.

(** The handlers of the loader's signals, as [monitorStart] connects
    them. *)
Definition loader_handlers : list LoaderSignal :=
  [pluginRemoved; pluginModified; pluginAdded].

(** The events of registering the two appenders for each category. *)
Definition category_events (cs : list string) : list event :=
  flat_map (λ c, [RegisterCategoryAppender c; RegisterCategoryAppender c]) cs.

(** An environment in which everything works, with the plugins [p] and
    [q] at the factory, and the process it starts. *)
Definition working_env : env :=
  example_env (Some "5.10.3") (Some [x31]%byte) (λ _, true) (λ _, true)
    (λ _, None) ["p"; "q"].

Definition started_world : world :=
  (init_connection working_env
     (start_world (Some (Device true TakesAll [])) false)).2.

(** An environment in which the bus refuses the object path. *)
Definition no_object_env : env :=
  Env (Some "5.10.3") (Some [x31]%byte) (λ _, true) (λ _, true)
      ["p"; "q"] (λ _, None) (λ _, ["p"; "q"]) ["vfs"] true false
      reads_removed_pair.
(** * Properties *)

(** ** Qt strings *)

Example split_5_10_3 : QString.split "." "5.10.3" = ["5"; "10"; "3"].
Proof. reflexivity. Qed.

Example split_abc : QString.split "." "abc" = ["abc"].
Proof. reflexivity. Qed.

Example split_keeps_empty : QString.split "." "5..3." = ["5"; ""; "3"; ""].
Proof. reflexivity. Qed.

Example toInt_10 : QString.toInt "10" = 10.
Proof. reflexivity. Qed.

Example toInt_overflow : QString.toInt "2147483648" = 0.
Proof. reflexivity. Qed.

Example toInt_release_tail : QString.toInt "0-18-amd64" = 0.
Proof. reflexivity. Qed.

(** ** Lists and traces *)

Lemma drop_delete_same {A} (l : list A) (i : nat) :
  drop i (delete i l) = drop (S i) l.
Proof.
  revert i. induction l as [|x l IH]; intros [|i]; simpl; auto.
Qed.

Lemma drop_lookup_cons {A} (l rest : list A) (i : nat) (x : A) :
  drop i l = x :: rest → l !! i = Some x ∧ drop (S i) l = rest.
Proof.
  revert i. induction l as [|y l IH]; intros [|i] H; simpl in *;
    try discriminate.
  - by inversion H.
  - by apply IH.
Qed.

Lemma drop_nil_lookup {A} (l : list A) (i : nat) :
  drop i l = [] → l !! i = None.
Proof.
  revert i. induction l as [|y l IH]; intros [|i] H; simpl in *;
    try discriminate; auto.
Qed.

Lemma take_delete_same {A} (l : list A) (i : nat) :
  take i (delete i l) = take i l.
Proof.
  revert i. induction l as [|x l IH]; intros [|i]; simpl; auto.
  by rewrite IH.
Qed.

Lemma events_since_app (w w' : world) (evs : list event) :
  trace w' = trace w ++ evs → events_since w w' = evs.
Proof. unfold events_since. intros ->. by rewrite drop_app_length. Qed.

(** Three cases for an entry, as the loop distinguishes them. *)
Ltac entry_cases e keys value :=
  let Hkey := fresh "Hkey" in
  let Hwait := fresh "Hwait" in
  destruct (bool_decide (value.1 ∈ keys)) eqn:Hkey;
  [destruct (thread_wait e value.2) eqn:Hwait|]; simpl.

Ltac by_taken H := rewrite H; simpl; tauto.

(** ** The loop of [removePlugins] *)

Section Removal.

Context (e : env) (keys : list string).

(** The loop ends by its own test: any fuel of at least the number of
    entries still to visit gives the iterations of [sweep]. *)
Lemma removePlugins_loop_sweep (rest : list (string * DASInterface)) :
  ∀ (fuel i : nat) (w : world),
    drop i (interfaceList w) = rest →
    (length rest ≤ fuel)%nat →
    removePlugins_loop fuel e keys i w = sweep e keys i rest w.
Proof.
  induction rest as [|value rest IH]; intros fuel i w Hdrop Hfuel.
  - apply drop_nil_lookup in Hdrop. destruct fuel; simpl; [done|].
    by rewrite Hdrop.
  - destruct fuel as [|fuel]; [simpl in Hfuel; lia|].
    apply drop_lookup_cons in Hdrop as [Hat Hdrop].
    simpl. rewrite Hat. simpl in Hfuel.
    destruct (bool_decide (value.1 ∈ keys)); simpl.
    + destruct (thread_wait e value.2); simpl.
      * apply IH; [|lia]. simpl. by rewrite drop_delete_same.
      * apply IH; [done|lia].
    + apply IH; [done|lia].
Qed.

Lemma removePlugins_sweep (w : world) :
  removePlugins e keys w = sweep e keys 0 (interfaceList w) w.
Proof. unfold removePlugins. by apply removePlugins_loop_sweep. Qed.

Lemma taken_out_true (value : string * DASInterface) :
  bool_decide (value.1 ∈ keys) = true → thread_wait e value.2 = true →
  taken_out e keys value = true.
Proof. unfold taken_out. by intros -> ->. Qed.

Lemma taken_out_no_wait (value : string * DASInterface) :
  thread_wait e value.2 = false → taken_out e keys value = false.
Proof. unfold taken_out. intros ->. by rewrite andb_false_r. Qed.

Lemma taken_out_no_key (value : string * DASInterface) :
  bool_decide (value.1 ∈ keys) = false → taken_out e keys value = false.
Proof. unfold taken_out. by intros ->. Qed.

(** The registry after the loop: the entries before [i] as they are,
    and of the others those that are not taken out. *)
Lemma sweep_interfaceList (rest : list (string * DASInterface)) :
  ∀ (i : nat) (w : world),
    drop i (interfaceList w) = rest →
    interfaceList (sweep e keys i rest w)
    = take i (interfaceList w)
      ++ filter (λ v, negb (taken_out e keys v)) rest.
Proof.
  induction rest as [|value rest IH]; intros i w Hdrop; simpl.
  - rewrite <- (take_drop i (interfaceList w)) at 1. by rewrite Hdrop.
  - apply drop_lookup_cons in Hdrop as [Hat Hdrop].
    entry_cases e keys value.
    + rewrite IH by (simpl; by rewrite drop_delete_same).
      simpl. rewrite take_delete_same.
      rewrite filter_cons_False; [done|].
      by_taken (taken_out_true _ Hkey Hwait).
    + rewrite IH by done. simpl.
      rewrite (take_S_r _ _ _ Hat), <- app_assoc. simpl.
      rewrite filter_cons_True; [done|].
      by_taken (taken_out_no_wait _ Hwait).
    + rewrite IH by done.
      rewrite (take_S_r _ _ _ Hat), <- app_assoc. simpl.
      rewrite filter_cons_True; [done|].
      by_taken (taken_out_no_key _ Hkey).
Qed.

(** Removing the first of the entries still to visit leaves the
    entries in front of them and the others. *)
Lemma delete_before (before rest : list (string * DASInterface))
  (value : string * DASInterface) :
  delete (length before) (before ++ value :: rest) = before ++ rest.
Proof. induction before as [|u before IH]; simpl; [done|]. by rewrite IH. Qed.

Lemma sweep_trace (rest : list (string * DASInterface)) :
  ∀ (before : list (string * DASInterface)) (w : world),
    interfaceList w = before ++ rest →
    trace (sweep e keys (length before) rest w)
    = trace w ++ sweep_events e keys before rest.
Proof.
  induction rest as [|value rest IH]; intros before w Hlist; simpl.
  - by rewrite app_nil_r.
  - entry_cases e keys value.
    + rewrite Hlist, delete_before.
      rewrite IH by (simpl; done).
      simpl. by rewrite <- !app_assoc.
    + replace (S (length before)) with (length (before ++ [value]))
        by (rewrite length_app; simpl; lia).
      rewrite IH by (simpl; by rewrite Hlist, <- app_assoc).
      simpl. by rewrite <- !app_assoc.
    + replace (S (length before)) with (length (before ++ [value]))
        by (rewrite length_app; simpl; lia).
      rewrite IH by (by rewrite Hlist, <- app_assoc). done.
Qed.

(** When no entry still to visit is taken out, the loop removes no
    connection and releases nothing. *)
Lemma sweep_none_taken (rest : list (string * DASInterface)) :
  ∀ (i : nat) (w : world),
    (∀ v, v ∈ rest → taken_out e keys v = false) →
    connections (sweep e keys i rest w) = connections w
    ∧ deferredDelete (sweep e keys i rest w) = deferredDelete w
    ∧ interfaceList (sweep e keys i rest w) = interfaceList w.
Proof.
  induction rest as [|value rest IH]; intros i w Hnone; simpl; [done|].
  assert (Hrest : ∀ v, v ∈ rest → taken_out e keys v = false)
    by (intros v Hv; apply Hnone; by right).
  assert (Hvalue : taken_out e keys value = false) by (apply Hnone; by left).
  entry_cases e keys value.
  - by rewrite (taken_out_true _ Hkey Hwait) in Hvalue.
  - by destruct (IH (S i)
                   (emit (qWarning ["failed on wait thread to quit, key:";
                                    value.1])
                      (emit (ThreadWait value.2 false)
                         (emit (ThreadQuit value.2) w))) Hrest)
      as (-> & -> & ->).
  - by apply IH.
Qed.

(** The loop touches nothing else. *)
Lemma sweep_frame (rest : list (string * DASInterface)) :
  ∀ (i : nat) (w : world),
    let w' := sweep e keys i rest w in
    hasconnected w' = hasconnected w ∧ server w' = server w
    ∧ loaderSlots w' = loaderSlots w ∧ nextObject w' = nextObject w
    ∧ driver_set_info w' = driver_set_info w ∧ busService w' = busService w.
Proof.
  induction rest as [|value rest IH]; intros i w; simpl; [done|].
  entry_cases e keys value;
    match goal with
    | |- context [sweep e keys ?j rest ?w1] => exact (IH j w1)
    end.
Qed.

(** [removePlugins] in closed form. *)

Lemma removePlugins_interfaceList (w : world) :
  interfaceList (removePlugins e keys w)
  = filter (λ v, negb (taken_out e keys v)) (interfaceList w).
Proof. rewrite removePlugins_sweep. by rewrite sweep_interfaceList. Qed.

Lemma removePlugins_trace (w : world) :
  trace (removePlugins e keys w)
  = trace w ++ sweep_events e keys [] (interfaceList w).
Proof.
  rewrite removePlugins_sweep. by apply (sweep_trace (interfaceList w) []).
Qed.

Lemma removePlugins_events (w : world) :
  events_since w (removePlugins e keys w)
  = sweep_events e keys [] (interfaceList w).
Proof. apply events_since_app, removePlugins_trace. Qed.

Lemma removePlugins_nextObject (w : world) :
  nextObject (removePlugins e keys w) = nextObject w.
Proof. rewrite removePlugins_sweep. apply sweep_frame. Qed.

Lemma sweep_events_warns (rest : list (string * DASInterface))
  (value : string * DASInterface) :
  ∀ before : list (string * DASInterface),
    value ∈ rest → value.1 ∈ keys → thread_wait e value.2 = false →
    qWarning ["failed on wait thread to quit, key:"; value.1]
      ∈ sweep_events e keys before rest.
Proof.
  induction rest as [|v rest IH]; intros before Hin Hkey Hwait.
  - by apply elem_of_nil in Hin.
  - apply elem_of_cons in Hin as [<-|Hin]; simpl.
    + rewrite bool_decide_eq_true_2 by done. rewrite Hwait. simpl.
      set_solver.
    + pose proof (IH before Hin Hkey Hwait).
      pose proof (IH (before ++ [v]) Hin Hkey Hwait).
      entry_cases e keys v; rewrite ?elem_of_cons; tauto.
Qed.

End Removal.

(** ** Removal: what the reads after [removeAt] do to the order and to
    an entry whose thread does not end *)

Lemma kept_cons_taken (e : env) (keys : list string)
  (v : string * DASInterface) (l : list (string * DASInterface)) :
  taken_out e keys v = true → kept e keys (v :: l) = kept e keys l.
Proof.
  intros H. unfold kept. rewrite filter_cons_False; [done|]. by_taken H.
Qed.

Lemma kept_cons_left (e : env) (keys : list string)
  (v : string * DASInterface) (l : list (string * DASInterface)) :
  taken_out e keys v = false → kept e keys (v :: l) = S (kept e keys l).
Proof.
  intros H. unfold kept. rewrite filter_cons_True; [done|]. by_taken H.
Qed.

(** The events of the loop for the entry at index [i] of those still to
    visit, when the loop takes it out: the index given to [removeAt] is
    the number of entries in front that stay, and the two reads that
    follow see the list without the entry. *)
Lemma sweep_events_removal (e : env) (keys : list string)
  (rest : list (string * DASInterface)) :
  ∀ (before : list (string * DASInterface)) (i : nat)
    (value : string * DASInterface),
    rest !! i = Some value →
    value.1 ∈ keys →
    thread_wait e value.2 = true →
    let j := (length before + kept e keys (take i rest))%nat in
    let left := before
                ++ filter (λ v, negb (taken_out e keys v)) (take i rest)
                ++ drop (S i) rest in
    ∃ pre post : list event,
      sweep_events e keys before rest
      = pre
        ++ removal_events j value
             (dangling_second e AtDisconnect j left value)
             (dangling_second e AtDeleteLater j left value)
        ++ post.
Proof.
  induction rest as [|u rest IH]; intros before i value Hat Hkey Hwait;
    [done|].
  destruct i as [|i]; simpl in Hat.
  - inversion Hat; subst u. simpl.
    rewrite bool_decide_eq_true_2 by done. rewrite Hwait. simpl.
    unfold kept. simpl. rewrite Nat.add_0_r.
    exists [], (sweep_events e keys before rest). done.
  - simpl take. simpl drop. simpl sweep_events.
    entry_cases e keys u.
    + destruct (IH before i value Hat Hkey Hwait) as (pre & post & ->).
      rewrite (kept_cons_taken e keys u _ (taken_out_true e keys u Hkey0 Hwait0)).
      rewrite filter_cons_False
        by by_taken (taken_out_true e keys u Hkey0 Hwait0).
      eexists (_ :: _ :: _ :: _ :: _ :: pre), post. reflexivity.
    + destruct (IH (before ++ [u]) i value Hat Hkey Hwait)
        as (pre & post & ->).
      rewrite (kept_cons_left e keys u _ (taken_out_no_wait e keys u Hwait0)).
      rewrite filter_cons_True
        by by_taken (taken_out_no_wait e keys u Hwait0).
      rewrite length_app, <- !app_assoc. simpl.
      replace (length before + 1 + kept e keys (take i rest))%nat
        with (length before + S (kept e keys (take i rest)))%nat by lia.
      eexists (_ :: _ :: _ :: pre), post. reflexivity.
    + destruct (IH (before ++ [u]) i value Hat Hkey Hwait)
        as (pre & post & ->).
      rewrite (kept_cons_left e keys u _ (taken_out_no_key e keys u Hkey0)).
      rewrite filter_cons_True
        by by_taken (taken_out_no_key e keys u Hkey0).
      rewrite length_app, <- !app_assoc. simpl.
      replace (length before + 1 + kept e keys (take i rest))%nat
        with (length before + S (kept e keys (take i rest)))%nat by lia.
      by exists pre, post.
Qed.

(** C3.  The code does not keep the order of the claim.  For every live
    entry whose key is asked for and whose thread ends, [removePlugins]
    performs, one after the other and with nothing in between: [quit]
    on the thread, [wait] (which succeeds), [removeAt] at the index the
    entry then has, and only after that [disconnect] and [deleteLater].
    The entry has left the list when the interface to disconnect and
    to release is read: both calls get what a read through the invalid
    reference yields on the list without the entry, not what the entry
    held. *)
Theorem removePlugins_order (e : env) (keys : list string) (w : world)
  (i : nat) (value : string * DASInterface) :
  interfaceList w !! i = Some value →
  value.1 ∈ keys →
  thread_wait e value.2 = true →
  let j := kept e keys (take i (interfaceList w)) in
  let left := filter (λ v, negb (taken_out e keys v))
                     (take i (interfaceList w))
              ++ drop (S i) (interfaceList w) in
  ∃ before after : list event,
    events_since w (removePlugins e keys w)
    = before
      ++ [ThreadQuit value.2; ThreadWait value.2 true; ListRemoveAt j;
          Disconnect (dangling_second e AtDisconnect j left value);
          DeleteLater (dangling_second e AtDeleteLater j left value)]
      ++ after.
Proof.
  intros Hat Hkey Hwait j left. subst j left.
  rewrite removePlugins_events.
  exact (sweep_events_removal e keys (interfaceList w) [] i value
           Hat Hkey Hwait).
Qed.

Lemma removePlugins_order_witness :
  ∃ before after : list event,
    events_since two_plugins
      (removePlugins (slot_reading_env (λ _, true)) ["p"] two_plugins)
    = before
      ++ [ThreadQuit 0%nat; ThreadWait 0%nat true; ListRemoveAt 0%nat;
          Disconnect 1%nat; DeleteLater 1%nat]
      ++ after.
Proof.
  apply (removePlugins_order (slot_reading_env (λ _, true)) ["p"]
           two_plugins 0%nat ("p", 0%nat)).
  - reflexivity.
  - simpl. constructor.
  - reflexivity.
Defined.


(** ** [addPlugin] in closed form *)

Lemma addPlugin_interfaceList (e : env) (key : string) (w : world) :
  interfaceList (addPlugin e key w)
  = interfaceList w
    ++ (if factory_creates e key then [(key, nextObject w)] else []).
Proof.
  unfold addPlugin, DASFactory_create.
  destruct (factory_creates e key); simpl; [done|by rewrite app_nil_r].
Qed.

Lemma addPlugin_nextObject (e : env) (key : string) (w : world) :
  nextObject (addPlugin e key w)
  = if factory_creates e key then S (nextObject w) else nextObject w.
Proof.
  unfold addPlugin, DASFactory_create. by destruct (factory_creates e key).
Qed.

Lemma addPlugin_live_keys (e : env) (key : string) (w : world) :
  live_keys (addPlugin e key w)
  = live_keys w ++ (if factory_creates e key then [key] else []).
Proof.
  unfold live_keys. rewrite addPlugin_interfaceList, fmap_app.
  by destruct (factory_creates e key).
Qed.

(** ** The live key set along a sequence of operations *)

Lemma removePlugins_live_keys_NoDup (e : env) (keys : list string) (w : world) :
  NoDup (live_keys w) → NoDup (live_keys (removePlugins e keys w)).
Proof.
  unfold live_keys. rewrite removePlugins_interfaceList.
  intros Hnodup. eapply sublist_NoDup; [exact Hnodup|].
  apply fmap_sublist, sublist_filter.
Qed.

Lemma NoDup_fst_functional {A B} (l : list (A * B)) :
  NoDup l.*1 → ∀ x y1 y2, (x, y1) ∈ l → (x, y2) ∈ l → y1 = y2.
Proof.
  induction l as [|[a b] l IH]; intros Hnodup x y1 y2 H1 H2.
  - by apply elem_of_nil in H1.
  - simpl in Hnodup. apply NoDup_cons in Hnodup as [Hnotin Hnodup].
    apply elem_of_cons in H1 as [H1|H1]; apply elem_of_cons in H2 as [H2|H2].
    + congruence.
    + inversion H1; subst. exfalso. apply Hnotin.
      apply list_elem_of_fmap. by exists (a, y2).
    + inversion H2; subst. exfalso. apply Hnotin.
      apply list_elem_of_fmap. by exists (a, y1).
    + by eapply IH.
Qed.

(** With one entry per key, the keys left are the keys there were minus
    the keys of the entries taken out. *)
Lemma removePlugins_live_key_set (e : env) (keys : list string) (w : world) :
  NoDup (live_keys w) →
  live_key_set (removePlugins e keys w)
  = live_key_set w
    ∖ list_to_set (filter (λ v, taken_out e keys v) (interfaceList w)).*1.
Proof.
  unfold live_key_set, live_keys. intros Hnodup.
  rewrite removePlugins_interfaceList.
  pose proof (NoDup_fst_functional _ Hnodup) as Hfun.
  apply set_eq. intros k.
  rewrite elem_of_difference, !elem_of_list_to_set, !list_elem_of_fmap.
  split.
  - intros [[k' h] [-> Hin]]. apply list_elem_of_filter in Hin as [Hkeep Hin].
    split; [by exists (k', h)|].
    intros [[k'' h'] [Heq Hin']]. simpl in Heq. subst k''.
    apply list_elem_of_filter in Hin' as [Htaken Hin'].
    rewrite (Hfun _ _ _ Hin Hin') in Hkeep.
    by destruct (taken_out e keys (k', h')).
  - intros [[[k' h] [-> Hin]] Hnot]. exists (k', h). split; [done|].
    apply list_elem_of_filter. split; [|done].
    destruct (taken_out e keys (k', h)) eqn:Htaken; [|done].
    exfalso. apply Hnot. exists (k', h). split; [done|].
    apply list_elem_of_filter. split; [by rewrite Htaken|done].
Qed.

Lemma taken_keys_live (e : env) (keys : list string) (w : world) :
  list_to_set (filter (λ v, taken_out e keys v) (interfaceList w)).*1
  ⊆ live_key_set w.
Proof.
  unfold live_key_set, live_keys. intros k.
  rewrite !elem_of_list_to_set, !list_elem_of_fmap.
  intros [v [-> Hin]]. exists v. split; [done|].
  by apply list_elem_of_filter in Hin as [_ Hin].
Qed.

(** The invariant behind C4: from a registry whose key set is [A ∖ R],
    with one entry per key, a sequence that adds no key of [A] and no
    key twice ends with the keys added along the way joined to [A] and
    the keys taken out along the way joined to [R]. *)
Lemma run_live_key_set (ops : list (env * op)) :
  ∀ (w : world) (A R : gset string),
    live_key_set w = A ∖ R →
    R ⊆ A →
    NoDup (live_keys w) →
    NoDup (add_requests ops) →
    (∀ k, k ∈ add_requests ops → k ∉ A) →
    live_key_set (run ops w) = (A ∪ added ops) ∖ (R ∪ removed ops w).
Proof.
  induction ops as [|[e [key|keys]] ops IH]; intros w A R Hlive HRA Hnodup Hreq Hnew.
  - simpl. rewrite Hlive. set_solver.
  - simpl in *. apply NoDup_cons in Hreq as [Hkey Hreq].
    assert (HkA : key ∉ A) by (apply Hnew; left).
    assert (Hkw : key ∉ live_keys w).
    { intros Hin. apply (elem_of_list_to_set (C := gset string)) in Hin.
      fold (live_key_set w) in Hin. set_solver. }
    change (step w (e, OpAdd key)) with (addPlugin e key w).
    destruct (factory_creates e key) eqn:Hcreate.
    + rewrite (IH _ (A ∪ {[key]}) R).
      * set_solver.
      * unfold live_key_set. rewrite addPlugin_live_keys, Hcreate.
        rewrite list_to_set_app_L. fold (live_key_set w). rewrite Hlive.
        simpl. set_solver.
      * set_solver.
      * rewrite addPlugin_live_keys, Hcreate. apply NoDup_app.
        repeat split; [done| |apply NoDup_singleton].
        intros k Hk Hk'. apply list_elem_of_singleton in Hk'. by subst.
      * done.
      * intros k Hk. assert (Hk' : k ∈ key :: add_requests ops) by (by right).
        specialize (Hnew k Hk').
        assert (k ≠ key) by (intros ->; done). set_solver.
    + rewrite (IH _ A R).
      * set_solver.
      * unfold live_key_set. rewrite addPlugin_live_keys, Hcreate.
        rewrite app_nil_r. apply Hlive.
      * done.
      * by rewrite addPlugin_live_keys, Hcreate, app_nil_r.
      * done.
      * intros k Hk. apply Hnew. by right.
  - simpl in *.
    change (step w (e, OpRemove keys)) with (removePlugins e keys w).
    pose proof (taken_keys_live e keys w) as Hsub.
    rewrite (IH _ A
               (R ∪ list_to_set
                  (filter (λ v, taken_out e keys v) (interfaceList w)).*1)).
    + set_solver.
    + rewrite removePlugins_live_key_set by done. rewrite Hlive. set_solver.
    + rewrite Hlive in Hsub. set_solver.
    + by apply removePlugins_live_keys_NoDup.
    + done.
    + done.
Qed.

(** [removePlugins] with keys none of which is registered visits every
    entry and changes nothing. *)
Lemma sweep_unregistered (e : env) (keys : list string)
  (rest : list (string * DASInterface)) :
  ∀ (i : nat) (w : world),
    (∀ k, k ∈ keys → k ∉ rest.*1) → sweep e keys i rest w = w.
Proof.
  induction rest as [|value rest IH]; intros i w Hnone; simpl; [done|].
  rewrite bool_decide_eq_false_2.
  - simpl. apply IH. intros k Hk Hin. apply (Hnone k Hk). by right.
  - intros Hk. apply (Hnone _ Hk). by left.
Qed.

(** C4.  From the empty registry of a starting process, after any
    sequence of [addPlugin] and [removePlugins] in which no key is asked
    to be added twice, the set of live keys is the set of keys added
    minus the set of keys successfully removed; and a [removePlugins]
    for keys none of which is registered leaves the whole state as it
    was. *)
Theorem registry_live_key_set (ops : list (env * op))
  (drv : option device) (bus : bool) :
  NoDup (add_requests ops) →
  live_key_set (run ops (start_world drv bus))
  = added ops ∖ removed ops (start_world drv bus)
  ∧ (∀ (e : env) (keys : list string) (w : world),
       (∀ k, k ∈ keys → k ∉ live_keys w) → removePlugins e keys w = w).
Proof.
  intros Hreq. split.
  - rewrite (run_live_key_set ops (start_world drv bus) ∅ ∅);
      [set_solver|done|done|constructor|done|set_solver].
  - intros e keys w Hnone. rewrite removePlugins_sweep.
    by apply sweep_unregistered.
Qed.

Lemma registry_live_key_set_witness :
  let e := willing_env (λ h, bool_decide (h ≠ 1%nat)) in
  let ops := [(e, OpAdd "p"); (e, OpRemove ["q"]); (e, OpAdd "q");
              (e, OpAdd "r"); (e, OpRemove ["p"; "q"])] in
  live_keys (run ops (start_world None false)) = ["q"; "r"]
  ∧ live_key_set (run ops (start_world None false))
    = added ops ∖ removed ops (start_world None false).
Proof.
  split; [reflexivity|].
  apply (registry_live_key_set
           [(willing_env (λ h, bool_decide (h ≠ 1%nat)), OpAdd "p");
            (willing_env (λ h, bool_decide (h ≠ 1%nat)), OpRemove ["q"]);
            (willing_env (λ h, bool_decide (h ≠ 1%nat)), OpAdd "q");
            (willing_env (λ h, bool_decide (h ≠ 1%nat)), OpAdd "r");
            (willing_env (λ h, bool_decide (h ≠ 1%nat)), OpRemove ["p"; "q"])]
           None false).
  simpl. repeat (apply NoDup_cons_2; [set_solver|]). apply NoDup_nil_2.
Defined.

(** ** One entry per key *)

Lemma run_live_keys_NoDup (ops : list (env * op)) :
  ∀ w : world,
    NoDup (live_keys w) → adds_unregistered ops w →
    NoDup (live_keys (run ops w)).
Proof.
  induction ops as [|[e [key|keys]] ops IH]; intros w Hnodup Hadds;
    simpl in *; [done| |].
  - destruct Hadds as [Hkey Hadds].
    change (step w (e, OpAdd key)) with (addPlugin e key w) in *.
    apply IH; [|done].
    rewrite addPlugin_live_keys.
    destruct (factory_creates e key); [|by rewrite app_nil_r].
    apply NoDup_app. repeat split; [done| |apply NoDup_singleton].
    intros k Hk Hk'. apply list_elem_of_singleton in Hk'. by subst.
  - destruct Hadds as [_ Hadds].
    change (step w (e, OpRemove keys)) with (removePlugins e keys w) in *.
    apply IH; [|done]. by apply removePlugins_live_keys_NoDup.
Qed.

(** C5, as the code has it.  In every state reached from the start of
    the process by a sequence of [addPlugin] and [removePlugins] in
    which no [addPlugin] is invoked for a key that is registered at that
    moment, the registry holds at most one entry per key. *)
Theorem registry_one_entry_per_key (ops : list (env * op))
  (drv : option device) (bus : bool) :
  adds_unregistered ops (start_world drv bus) →
  NoDup (live_keys (run ops (start_world drv bus))).
Proof. intros Hadds. apply run_live_keys_NoDup; [constructor|done]. Qed.

Lemma registry_one_entry_per_key_witness :
  let e := willing_env (λ _, true) in
  NoDup (live_keys (run [(e, OpAdd "p"); (e, OpRemove ["p"]); (e, OpAdd "p")]
                        (start_world None false))).
Proof.
  apply (registry_one_entry_per_key
           [(willing_env (λ _, true), OpAdd "p");
            (willing_env (λ _, true), OpRemove ["p"]);
            (willing_env (λ _, true), OpAdd "p")] None false).
  vm_compute. repeat split; apply not_elem_of_nil.
Defined.

(** C5, as the claim has it, fails: [addPlugin] does not look for an
    entry with the same key, so adding [p] twice leaves two entries for
    [p], each with its own interface. *)
Lemma registry_one_entry_per_key_counterexample :
  let e := willing_env (λ _, true) in
  let w := run [(e, OpAdd "p"); (e, OpAdd "p")] (start_world None false) in
  interfaceList w = [("p", 0%nat); ("p", 1%nat)]
  ∧ ¬ NoDup (live_keys w).
Proof.
  split; [reflexivity|].
  vm_compute. intros H. apply NoDup_cons in H as [H _]. apply H. constructor.
Qed.

(** ** The reload of a modified plugin *)

Lemma addPlugin_trace (e : env) (key : string) (w : world) :
  trace (addPlugin e key w) = trace w ++ add_events e (nextObject w) [key].
Proof.
  unfold addPlugin, DASFactory_create. simpl.
  destruct (factory_creates e key); simpl; by rewrite <- ?app_assoc.
Qed.

Lemma addPlugins_interfaceList (e : env) (ks : list string) :
  ∀ w : world,
    interfaceList (foldl (λ w key, addPlugin e key w) w ks)
    = interfaceList w ++ fresh_entries e (nextObject w) ks.
Proof.
  induction ks as [|key ks IH]; intros w; simpl.
  - by rewrite app_nil_r.
  - rewrite IH, addPlugin_interfaceList, addPlugin_nextObject.
    destruct (factory_creates e key); simpl; by rewrite <- ?app_assoc.
Qed.

Lemma addPlugins_trace (e : env) (ks : list string) :
  ∀ w : world,
    trace (foldl (λ w key, addPlugin e key w) w ks)
    = trace w ++ add_events e (nextObject w) ks.
Proof.
  induction ks as [|key ks IH]; intros w; simpl.
  - by rewrite app_nil_r.
  - rewrite IH, addPlugin_trace, addPlugin_nextObject. simpl.
    destruct (factory_creates e key); simpl; by rewrite <- ?app_assoc.
Qed.

Lemma addPlugins_nextObject (e : env) (ks : list string) :
  ∀ w : world,
    nextObject (foldl (λ w key, addPlugin e key w) w ks)
    = (nextObject w + length (fresh_entries e (nextObject w) ks))%nat.
Proof.
  induction ks as [|key ks IH]; intros w; simpl; [lia|].
  rewrite IH, addPlugin_nextObject.
  destruct (factory_creates e key); simpl; lia.
Qed.

(** The keys of the fresh entries are the keys the factory serves, in
    order; their interfaces are the next objects, in order. *)
Lemma fresh_entries_keys (e : env) (ks : list string) :
  ∀ n : nat,
    (fresh_entries e n ks).*1 = filter (λ k, factory_creates e k) ks.
Proof.
  induction ks as [|key ks IH]; intros n; simpl; [done|].
  destruct (factory_creates e key) eqn:Hc.
  - rewrite filter_cons_True by by_taken Hc.
    rewrite fmap_cons. simpl. f_equal. apply IH.
  - rewrite filter_cons_False; [apply IH|by_taken Hc].
Qed.

Lemma fresh_entries_handles (e : env) (ks : list string) :
  ∀ n : nat,
    (fresh_entries e n ks).*2 = seq n (length (fresh_entries e n ks)).
Proof.
  induction ks as [|key ks IH]; intros n; simpl; [done|].
  destruct (factory_creates e key); simpl; [|apply IH].
  by rewrite IH.
Qed.

(** Every state reached from the start of the process has its
    interfaces allocated: the hypothesis of the next theorem holds
    wherever the handler can run. *)
Lemma addPlugin_handles_allocated (e : env) (key : string) (w : world) :
  handles_allocated w → handles_allocated (addPlugin e key w).
Proof.
  unfold handles_allocated. intros Halloc h.
  rewrite addPlugin_interfaceList, addPlugin_nextObject, fmap_app.
  rewrite elem_of_app. destruct (factory_creates e key); simpl.
  - intros [Hh|Hh]; [apply Halloc in Hh; lia|].
    apply list_elem_of_singleton in Hh. lia.
  - intros [Hh|Hh]; [by apply Halloc|by apply elem_of_nil in Hh].
Qed.

Lemma removePlugins_handles_allocated (e : env) (keys : list string)
  (w : world) :
  handles_allocated w → handles_allocated (removePlugins e keys w).
Proof.
  unfold handles_allocated. intros Halloc h.
  rewrite removePlugins_interfaceList, removePlugins_nextObject.
  intros Hh. apply Halloc.
  apply list_elem_of_fmap in Hh as [v [-> Hv]].
  apply list_elem_of_filter in Hv as [_ Hv].
  by apply list_elem_of_fmap_2.
Qed.

Lemma run_handles_allocated (ops : list (env * op)) :
  ∀ w : world, handles_allocated w → handles_allocated (run ops w).
Proof.
  induction ops as [|[e [key|keys]] ops IH]; intros w Halloc; simpl;
    [done| |]; apply IH.
  - by apply addPlugin_handles_allocated.
  - by apply removePlugins_handles_allocated.
Qed.

(** C6, as the code has it.  On [pluginModified] the handler first runs
    [removePlugins] on the keys, which takes out the entries whose
    thread ends and leaves those whose thread does not; then it asks the
    loader to reload; if the reload fails, nothing is constructed and
    the registry is what [removePlugins] left; if it succeeds, every key
    of the reloaded loader for which the factory returns an interface
    gets a new entry, appended in order, whose interface is constructed
    then and is none of the interfaces registered before. *)
Theorem pluginModified_reload (e : env) (loader : QPluginLoader)
  (keys : list string) (w : world) :
  handles_allocated w →
  let w' := on_pluginModified e loader keys w in
  let survivors :=
    filter (λ v, negb (taken_out e keys v)) (interfaceList w) in
  events_since w w'
  = sweep_events e keys [] (interfaceList w)
    ++ LoaderReload loader (reloadLoader e loader)
    :: match reloadLoader e loader with
       | Some reloaded =>
           add_events e (nextObject w) (getKeysByLoader e reloaded)
       | None => []
       end
  ∧ match reloadLoader e loader with
    | None => interfaceList w' = survivors ∧ nextObject w' = nextObject w
    | Some reloaded =>
        ∃ created : list (string * DASInterface),
          interfaceList w' = survivors ++ created
          ∧ created.*1 = filter (λ k, factory_creates e k)
                                (getKeysByLoader e reloaded)
          ∧ created.*2 = seq (nextObject w) (length created)
          ∧ ∀ h, h ∈ created.*2 → h ∉ (interfaceList w).*2
    end.
Proof.
  intros Halloc w' survivors. subst w' survivors. unfold on_pluginModified.
  split.
  - apply events_since_app.
    destruct (reloadLoader e loader) as [reloaded|]; simpl.
    + rewrite addPlugins_trace. simpl.
      rewrite removePlugins_nextObject, removePlugins_trace.
      by rewrite <- !app_assoc.
    + rewrite removePlugins_trace. by rewrite <- !app_assoc.
  - destruct (reloadLoader e loader) as [reloaded|]; simpl.
    + exists (fresh_entries e (nextObject w) (getKeysByLoader e reloaded)).
      rewrite addPlugins_interfaceList. simpl.
      rewrite removePlugins_interfaceList, removePlugins_nextObject.
      repeat split.
      * apply fresh_entries_keys.
      * apply fresh_entries_handles.
      * intros h Hh Hold. rewrite fresh_entries_handles in Hh.
        apply elem_of_seq in Hh. apply Halloc in Hold. lia.
    + by rewrite removePlugins_interfaceList, removePlugins_nextObject.
Qed.

Lemma one_plugin_allocated : handles_allocated one_plugin.
Proof.
  intros h Hh. vm_compute in Hh. apply list_elem_of_singleton in Hh.
  subst h. vm_compute. lia.
Defined.

Lemma pluginModified_reload_witness :
  let e := example_env None None (λ _, true) (λ _, true)
             (λ l, Some l) ["p"; "s"] in
  interfaceList (on_pluginModified e 7%nat ["p"] one_plugin)
  = [("p", 1%nat); ("s", 2%nat)]
  ∧ events_since one_plugin (on_pluginModified e 7%nat ["p"] one_plugin)
    = sweep_events e ["p"] [] (interfaceList one_plugin)
      ++ LoaderReload 7%nat (Some 7%nat)
      :: add_events e (nextObject one_plugin) ["p"; "s"].
Proof.
  split; [reflexivity|].
  apply (pluginModified_reload
           (example_env None None (λ _, true) (λ _, true)
              (λ l, Some l) ["p"; "s"]) 7%nat ["p"] one_plugin).
  exact one_plugin_allocated.
Defined.

(** C6, as the claim has it, fails.  When the thread of a plugin does
    not end, [removePlugins] leaves the entry: after a failed reload the
    key [p] is still registered, and after a successful reload [p] has
    its entry from before the reload next to the new one.  When the
    factory returns no interface for a key of the reloaded loader, the
    key gets no entry. *)
Lemma pluginModified_reload_counterexample :
  let failing := example_env None None (λ _, false) (λ _, true)
                   (λ _, None) ["p"] in
  let reloading := example_env None None (λ _, false) (λ _, true)
                     (λ l, Some l) ["p"] in
  let refusing := example_env None None (λ _, true) (λ _, false)
                    (λ l, Some l) ["p"] in
  interfaceList one_plugin = [("p", 0%nat)]
  ∧ interfaceList (on_pluginModified failing 7%nat ["p"] one_plugin)
    = [("p", 0%nat)]
  ∧ interfaceList (on_pluginModified reloading 7%nat ["p"] one_plugin)
    = [("p", 0%nat); ("p", 1%nat)]
  ∧ interfaceList (on_pluginModified refusing 7%nat ["p"] one_plugin) = [].
Proof. repeat split; reflexivity. Qed.

(** ** The mount-table relay *)

Lemma version_gate_spec (x y : Z) :
  version_gate x y = true ↔ (5 < x ∨ (x = 5 ∧ 10 <= y))%Z.
Proof.
  unfold version_gate.
  rewrite orb_true_iff, andb_true_iff, !Z.leb_le, Z.eqb_eq. lia.
Qed.

(** Every path through [writeMountInfo], one goal each. *)
Ltac relay_paths e w :=
  unfold relay_wanted, ver_x, ver_y, writeMountInfo;
  let release := fresh "release" in
  let Hcount := fresh "Hcount" in
  let Hgate := fresh "Hgate" in
  let data := fresh "data" in
  let d := fresh "d" in
  let Hopen := fresh "Hopen" in
  let Hwrite := fresh "Hwrite" in
  destruct (uname e) as [release|] eqn:Huname;
  [ destruct (bool_decide
                (length (QString.split "." release) < 3)%nat) eqn:Hcount;
    [ apply bool_decide_eq_true_1 in Hcount
    | apply bool_decide_eq_false_1 in Hcount;
      destruct (version_gate
                  (QString.toInt (nth 0 (QString.split "." release) ""))
                  (QString.toInt (nth 1 (QString.split "." release) "")))
        eqn:Hgate;
      [ destruct (proc_self_mountinfo e) as [data|] eqn:Hmount;
        [ unfold QFile_open; simpl;
          destruct (driver_set_info w) as [d|] eqn:Hdrv;
          [ destruct (dev_writable d) eqn:Hopen;
            [ destruct (QFile_write d data) as [written d'] eqn:Hwrite;
              destruct (Z.eqb written (Z.of_nat (length data))) eqn:Hlen
            | ]
          | ]
        | ]
      | ]
    ]
  | ]; simpl.

(** What is left on a path: hypotheses that contradict it, or the
    witnesses it provides. *)
Ltac relay_break :=
  repeat match goal with
    | H : _ ∧ _ |- _ => destruct H
    | H : ∃ _, _ |- _ => destruct H
    | H : is_Some _ |- _ => destruct H
    | H : Some _ = Some _ |- _ => inversion H; subst; clear H
    | H : QFile_write ?d ?data = _ |- _ =>
        match goal with
        | H' : context [QFile_write d data] |- _ =>
            lazymatch H' with H => fail | _ => rewrite H in H'; simpl in H' end
        end
    end.

Ltac relay_finish :=
  intros; relay_break;
  first
    [ congruence
    | lia
    | solve [match goal with H : ¬ _ |- _ => exfalso; apply H; eauto end]
    | solve [eexists; repeat split; eauto; lia]
    | solve [eexists _, _; repeat split; eauto;
             match goal with H : QFile_write _ _ = _ |- _ => by rewrite H end]
    | solve [intros ?; relay_break; congruence] ].

(** The results of [writeMountInfo] in terms of what the outside
    answers: each result with the condition that leads to it, in the
    order of the tests.  The channel exists afterwards exactly if it
    existed before. *)
Lemma writeMountInfo_result_conditions (e : env) (w : world) :
  let r := (writeMountInfo e w).1 in
  let w' := (writeMountInfo e w).2 in
  (r = UnameFail ↔ uname e = None)
  ∧ (r = UnrecognizedVersion ↔
     ∃ release, uname e = Some release
                ∧ (length (QString.split "." release) < 3)%nat)
  ∧ (r = OpenSrcFileFail ↔ relay_wanted e ∧ proc_self_mountinfo e = None)
  ∧ (r = OpenDstFileFail ↔
     relay_wanted e ∧ is_Some (proc_self_mountinfo e)
     ∧ ¬ ∃ d, driver_set_info w = Some d ∧ dev_writable d = true)
  ∧ (r = WriteDstFileFail ↔
     relay_wanted e
     ∧ ∃ data d, proc_self_mountinfo e = Some data
                 ∧ driver_set_info w = Some d ∧ dev_writable d = true
                 ∧ (QFile_write d data).1 ≠ Z.of_nat (length data))
  ∧ (r = Success ↔
     ∃ release,
       uname e = Some release
       ∧ (3 ≤ length (QString.split "." release))%nat
       ∧ (version_gate (ver_x release) (ver_y release) = false
          ∨ ∃ data d, proc_self_mountinfo e = Some data
                      ∧ driver_set_info w = Some d ∧ dev_writable d = true
                      ∧ (QFile_write d data).1 = Z.of_nat (length data)))
  ∧ (is_Some (driver_set_info w') ↔ is_Some (driver_set_info w)).
Proof.
  relay_paths e w.
  all: try first [apply Z.eqb_eq in Hlen | apply Z.eqb_neq in Hlen].
  all: repeat split; try discriminate; try done.
  all: try solve [relay_finish].
  all: try solve [eexists; repeat split; eauto; try lia;
                  right; eexists _, _; repeat split; eauto;
                  by rewrite Hwrite].
  all: try solve [intros; relay_break;
                  match goal with H : _ ∨ _ |- _ => destruct H end;
                  relay_break; congruence].
Qed.


(** The events of a path, read off the emits. *)
Ltac path_events :=
  unfold events_since; simpl; rewrite <- ?app_assoc;
  rewrite drop_app_length; simpl.




(** The three ways through [writeMountInfo] that the examples of the
    specification take. *)
Lemma writeMountInfo_unrecognized (e : env) (w : world) (release : string) :
  uname e = Some release →
  (length (QString.split "." release) < 3)%nat →
  writeMountInfo e w
  = (UnrecognizedVersion,
     emit (qWarning ["unrecognized version format, expect x.y.z"])
          (emit (qDebug ["the kernel version: "; release]) w)).
Proof.
  intros Hname Hshort. unfold writeMountInfo. rewrite Hname.
  by rewrite bool_decide_eq_true_2.
Qed.

Lemma writeMountInfo_gate_closed (e : env) (w : world) (release : string) :
  uname e = Some release →
  (3 ≤ length (QString.split "." release))%nat →
  version_gate (ver_x release) (ver_y release) = false →
  writeMountInfo e w
  = (Success, emit (qDebug ["the kernel version: "; release]) w).
Proof.
  intros Hname Hcount Hgate. unfold writeMountInfo. rewrite Hname.
  rewrite bool_decide_eq_false_2 by lia.
  unfold ver_x, ver_y in Hgate. by rewrite Hgate.
Qed.

Lemma QFile_write_takes (d : device) (data : list byte) :
  takes d (length data) →
  QFile_write d data
  = (Z.of_nat (length data),
     Device (dev_writable d) (dev_policy d) (dev_received d ++ data)).
Proof.
  unfold takes, QFile_write. destruct (dev_policy d) as [|m|]; intros Hroom.
  - done.
  - by rewrite Nat.min_r, take_ge by lia.
  - done.
Qed.

Lemma writeMountInfo_relayed (e : env) (w : world) (release : string)
  (data : list byte) (d : device) :
  uname e = Some release →
  (3 ≤ length (QString.split "." release))%nat →
  version_gate (ver_x release) (ver_y release) = true →
  proc_self_mountinfo e = Some data →
  driver_set_info w = Some d →
  dev_writable d = true →
  takes d (length data) →
  (writeMountInfo e w).1 = Success
  ∧ events_since w (writeMountInfo e w).2
    = [qDebug ["the kernel version: "; release];
       FileOpen mountinfo_path true;
       FileReadAll mountinfo_path (length data);
       FileClose mountinfo_path;
       FileOpen drv_path true;
       FileWrite drv_path data (Z.of_nat (length data));
       FileClose drv_path;
       qDebug ["write mountinfo success"]]
  ∧ driver_set_info (writeMountInfo e w).2
    = Some (Device (dev_writable d) (dev_policy d) (dev_received d ++ data)).
Proof.
  intros Hname Hcount Hgate Hmount Hdrv Hopen Hroom.
  unfold writeMountInfo. rewrite Hname.
  rewrite bool_decide_eq_false_2 by lia.
  unfold ver_x, ver_y in Hgate. rewrite Hgate, Hmount. simpl.
  rewrite Hdrv. simpl. rewrite Hopen, (QFile_write_takes d data Hroom).
  rewrite Z.eqb_refl. simpl. split; [done|split; [|by rewrite Hopen]].
  apply events_since_app. simpl. by rewrite <- !app_assoc.
Qed.

(** A write on the relay channel happens exactly when the relay is
    wanted, the mount table can be read and the channel can be opened. *)
Lemma writeMountInfo_writes_iff (e : env) (w : world) :
  existsb is_FileWrite (events_since w (writeMountInfo e w).2) = true
  ↔ relay_wanted e ∧ is_Some (proc_self_mountinfo e)
    ∧ ∃ d, driver_set_info w = Some d ∧ dev_writable d = true.
Proof.
  relay_paths e w; path_events.
  all: split; [try discriminate|]; intros.
  all: try solve [relay_break; congruence].
  all: try solve [relay_break; lia].
  all: repeat split; eauto.
  all: eexists; repeat split; eauto; lia.
Qed.

(** Without a write path taken, no file is touched. *)
Lemma writeMountInfo_quiet (e : env) (w : world) :
  ¬ relay_wanted e →
  existsb is_file_event (events_since w (writeMountInfo e w).2) = false
  ∧ driver_set_info (writeMountInfo e w).2 = driver_set_info w.
Proof.
  intros Hnot.
  relay_paths e w; path_events; try done.
  all: exfalso; apply Hnot; eexists; repeat split; eauto; lia.
Qed.

(** C7.  [writeMountInfo] writes to the relay channel exactly when the
    release has its three components, the parsed version has MAJOR > 5
    or MAJOR = 5 and MINOR >= 10, the mount table can be read and the
    channel can be opened.  For the release 5.9.0 it touches no file
    and returns [Success]; for 5.10.3, a mount table of N bytes and a
    channel that opens and takes N bytes, it writes these N bytes and
    returns [Success]; for abc it returns [UnrecognizedVersion] and
    touches no file. *)
Theorem writeMountInfo_gate (e : env) (w : world) :
  let r := (writeMountInfo e w).1 in
  let w' := (writeMountInfo e w).2 in
  let evs := events_since w w' in
  (existsb is_FileWrite evs = true ↔
   (∃ release,
      uname e = Some release
      ∧ (3 ≤ length (QString.split "." release))%nat
      ∧ (5 < ver_x release ∨ (ver_x release = 5 ∧ 10 <= ver_y release))%Z)
   ∧ is_Some (proc_self_mountinfo e)
   ∧ ∃ d, driver_set_info w = Some d ∧ dev_writable d = true)
  ∧ (uname e = Some "5.9.0" →
     r = Success ∧ existsb is_file_event evs = false
     ∧ driver_set_info w' = driver_set_info w)
  ∧ (∀ (data : list byte) (d : device),
       uname e = Some "5.10.3" →
       proc_self_mountinfo e = Some data →
       driver_set_info w = Some d →
       dev_writable d = true →
       takes d (length data) →
       r = Success
       ∧ filter (λ ev, is_FileWrite ev) evs
         = [FileWrite drv_path data (Z.of_nat (length data))]
       ∧ ∃ d', driver_set_info w' = Some d'
               ∧ dev_received d' = dev_received d ++ data)
  ∧ (uname e = Some "abc" →
     r = UnrecognizedVersion ∧ existsb is_file_event evs = false
     ∧ driver_set_info w' = driver_set_info w).
Proof.
  intros r w' evs. subst r w' evs. split; [|split; [|split]].
  - rewrite writeMountInfo_writes_iff. unfold relay_wanted.
    setoid_rewrite version_gate_spec. done.
  - intros Hname.
    rewrite (writeMountInfo_gate_closed e w "5.9.0" Hname);
      [|simpl; lia|reflexivity].
    simpl. split; [done|]. split; [|done]. by path_events.
  - intros data d Hname Hmount Hdrv Hopen Hroom.
    assert (Hcount : (3 ≤ length (QString.split "." "5.10.3"))%nat)
      by (simpl; lia).
    destruct (writeMountInfo_relayed e w "5.10.3" data d Hname Hcount
                eq_refl Hmount Hdrv Hopen Hroom) as (Hr & Hevs & Hdev).
    rewrite Hr, Hevs, Hdev. split; [done|]. split; [done|].
    eexists. split; [done|]. done.
  - intros Hname.
    rewrite (writeMountInfo_unrecognized e w "abc" Hname) by (simpl; lia).
    simpl. split; [done|]. split; [|done]. by path_events.
Qed.

Lemma writeMountInfo_gate_witness :
  let e := example_env (Some "5.10.3")
             (Some [x31; x32; x0a]%byte) (λ _, true) (λ _, true)
             (λ _, None) [] in
  let w := start_world (Some (Device true (TakesAtMost 8) [])) false in
  (writeMountInfo e w).1 = Success
  ∧ filter (λ ev, is_FileWrite ev) (events_since w (writeMountInfo e w).2)
    = [FileWrite drv_path [x31; x32; x0a]%byte 3]
  ∧ ∃ d', driver_set_info (writeMountInfo e w).2 = Some d'
          ∧ dev_received d' = [] ++ [x31; x32; x0a]%byte.
Proof.
  destruct (writeMountInfo_gate
              (example_env (Some "5.10.3")
                 (Some [x31; x32; x0a]%byte) (λ _, true) (λ _, true)
                 (λ _, None) [])
              (start_world (Some (Device true (TakesAtMost 8) [])) false))
    as (_ & _ & Hrelay & _).
  apply (Hrelay [x31; x32; x0a]%byte (Device true (TakesAtMost 8) []));
    try reflexivity.
  unfold takes. simpl. lia.
Defined.

(** Three components are enough for the release to be recognised. *)
Lemma writeMountInfo_recognized (e : env) (w : world) (release : string) :
  uname e = Some release →
  (3 ≤ length (QString.split "." release))%nat →
  (writeMountInfo e w).1 ≠ UnrecognizedVersion.
Proof.
  intros Hname Hcount. revert Hname.
  relay_paths e w; intros Hname; try discriminate.
  inversion Hname; subst. lia.
Qed.

(** C10.  A release string with at least three components is never
    rejected for what its components hold: a first or second component
    that [QString::toInt] cannot convert counts as 0.  With such a first
    component the version test fails and [writeMountInfo] returns
    [Success] having touched no file; with such a second component the
    test passes exactly when the first is at least 6.  The release a.b.c
    is version 0.0 and takes the first of these paths. *)
Theorem writeMountInfo_unparsed_component (e : env) (w : world)
  (release : string) :
  uname e = Some release →
  (3 ≤ length (QString.split "." release))%nat →
  let components := QString.split "." release in
  let r := (writeMountInfo e w).1 in
  let w' := (writeMountInfo e w).2 in
  r ≠ UnrecognizedVersion
  ∧ (QString.toIntOk (nth 0 components "") = None →
     ver_x release = 0
     ∧ r = Success
     ∧ existsb is_file_event (events_since w w') = false
     ∧ driver_set_info w' = driver_set_info w)
  ∧ (QString.toIntOk (nth 1 components "") = None →
     ver_y release = 0
     ∧ (version_gate (ver_x release) (ver_y release) = true
        ↔ (6 <= ver_x release)%Z))
  ∧ (release = "a.b.c" →
     ver_x release = 0 ∧ ver_y release = 0
     ∧ r = Success
     ∧ existsb is_file_event (events_since w w') = false
     ∧ driver_set_info w' = driver_set_info w).
Proof.
  intros Hname Hcount components r w'. subst components r w'.
  assert (Hzero : ver_x release = 0 →
            (writeMountInfo e w).1 = Success
            ∧ existsb is_file_event (events_since w (writeMountInfo e w).2)
              = false
            ∧ driver_set_info (writeMountInfo e w).2 = driver_set_info w).
  { intros Hx.
    rewrite (writeMountInfo_gate_closed e w release Hname Hcount)
      by (by rewrite Hx).
    simpl. split; [done|]. split; [|done]. by path_events. }
  split; [|split; [|split]].
  - by apply (writeMountInfo_recognized e w release).
  - intros Hfail.
    assert (Hx : ver_x release = 0).
    { unfold ver_x, QString.toInt. by rewrite Hfail. }
    split; [done|]. by apply Hzero.
  - intros Hfail.
    assert (Hy : ver_y release = 0).
    { unfold ver_y, QString.toInt. by rewrite Hfail. }
    split; [done|]. rewrite version_gate_spec, Hy. lia.
  - intros ->. split; [reflexivity|]. split; [reflexivity|].
    by apply Hzero.
Qed.

Lemma writeMountInfo_unparsed_component_witness :
  let e := example_env (Some "a.b.c") (Some [x31]%byte) (λ _, true)
             (λ _, true) (λ _, None) [] in
  let w := start_world (Some (Device true TakesAll [])) false in
  writeMountInfo e w
  = (Success, emit (qDebug ["the kernel version: "; "a.b.c"]) w)
  ∧ (writeMountInfo e w).1 ≠ UnrecognizedVersion.
Proof.
  split; [reflexivity|].
  apply (writeMountInfo_unparsed_component
           (example_env (Some "a.b.c") (Some [x31]%byte) (λ _, true)
              (λ _, true) (λ _, None) [])
           (start_world (Some (Device true TakesAll [])) false) "a.b.c").
  - reflexivity.
  - simpl. lia.
Defined.

(** ** Start-up *)

Lemma register_categories_hasconnected (cs : list string) :
  ∀ w : world,
    hasconnected
      (foldl (λ w c, emit (RegisterCategoryAppender c)
                       (emit (RegisterCategoryAppender c) w)) w cs)
    = hasconnected w.
Proof.
  induction cs as [|c cs IH]; intros w; simpl; [done|]. by rewrite IH.
Qed.

(** [backendRun] does not touch the flag. *)
Lemma backendRun_hasconnected (e : env) (w : world) :
  hasconnected (backendRun e w).2 = hasconnected w.
Proof.
  unfold backendRun.
  repeat match goal with
         | |- context [if ?b then _ else _] => destruct b
         end; simpl; by rewrite register_categories_hasconnected.
Qed.

(** C9.  Once [init_connection] has returned 0 the flag [hasconnected]
    is set, and every later call, whatever the outside then answers,
    returns 0 and leaves the whole state as it is: nothing is appended
    to the trace, so neither [backendRun] nor [monitorStart] runs, and
    the registry, the server and the relay channel are untouched.  From
    a state in which the flag is not set, a call sets it exactly when
    its [backendRun] returns 0, and returns 0 in that case and -1
    otherwise. *)
Theorem init_connection_idempotent (e : env) (w : world) :
  let r := (init_connection e w).1 in
  let w' := (init_connection e w).2 in
  (r = 0 →
   hasconnected w' = true
   ∧ ∀ e' : env,
       init_connection e' w' = (0, w')
       ∧ events_since w' (init_connection e' w').2 = [])
  ∧ (hasconnected w = false →
     (hasconnected w' = true ↔ (backendRun e w).1 = 0)
     ∧ (r = 0 ↔ (backendRun e w).1 = 0)
     ∧ (r = -1 ↔ (backendRun e w).1 ≠ 0)).
Proof.
  intros r w'. subst r w'. unfold init_connection.
  pose proof (backendRun_hasconnected e w) as Hkeep.
  destruct (hasconnected w) eqn:Hflag; simpl.
  - split; [|discriminate]. intros _. split; [done|].
    intros e'. rewrite Hflag. simpl. split; [done|].
    unfold events_since. apply drop_all.
  - destruct (backendRun e w) as [rb w1]. simpl in *.
    destruct (Z.eqb rb 0) eqn:Hrb.
    + apply Z.eqb_eq in Hrb. subst rb.
      destruct (monitorStart e w1) as [rm w2]. simpl.
      split.
      * intros _. split; [done|]. intros e'. simpl. split; [done|].
        unfold events_since. apply drop_all.
      * intros _. repeat split; try done; lia.
    + apply Z.eqb_neq in Hrb. simpl. split; [lia|].
      intros _. rewrite Hkeep. repeat split; try done; try lia.
Qed.

Lemma init_connection_idempotent_witness :
  let e := example_env (Some "5.10.3") (Some [x31]%byte) (λ _, true)
             (λ _, true) (λ _, None) ["p"; "q"] in
  let w := start_world (Some (Device true TakesAll [])) false in
  (init_connection e w).1 = 0
  ∧ live_keys (init_connection e w).2 = ["p"; "q"]
  ∧ hasconnected (init_connection e w).2 = true.
Proof.
  split; [reflexivity|]. split; [reflexivity|].
  destruct (init_connection_idempotent
              (example_env (Some "5.10.3") (Some [x31]%byte) (λ _, true)
                 (λ _, true) (λ _, None) ["p"; "q"])
              (start_world (Some (Device true TakesAll [])) false))
    as [Honce _].
  destruct Honce as [Hflag _]; [reflexivity|exact Hflag].
Defined.

(** * Further properties of the backend *)

(** ** What leaves the registry alone *)

Lemma same_registry_refl (w : world) : same_registry w w.
Proof. by unfold same_registry. Qed.

Lemma same_registry_trans (w1 w2 w3 : world) :
  same_registry w1 w2 → same_registry w2 w3 → same_registry w1 w3.
Proof.
  unfold same_registry. intros (?&?&?&?) (?&?&?&?). repeat split; congruence.
Qed.

Lemma writeMountInfo_same_registry (e : env) (w : world) :
  same_registry w (writeMountInfo e w).2.
Proof. relay_paths e w; by unfold same_registry. Qed.

Lemma register_categories_same_registry (cs : list string) :
  ∀ w : world,
    same_registry w
      (foldl (λ w c, emit (RegisterCategoryAppender c)
                       (emit (RegisterCategoryAppender c) w)) w cs).
Proof.
  induction cs as [|c cs IH]; intros w; simpl; [apply same_registry_refl|].
  eapply same_registry_trans; [|apply IH]. by unfold same_registry.
Qed.

Lemma backendRun_same_registry (e : env) (w : world) :
  same_registry w (backendRun e w).2.
Proof.
  unfold backendRun.
  pose proof (register_categories_same_registry (logCategoryList e)
                (emit RegisterAppender
                   (emit RegisterAppender (emit EnterBackendRun w)))) as Hcs.
  repeat match goal with
         | |- context [if ?b then _ else _] => destruct b
         end; simpl;
    (eapply same_registry_trans; [|eapply same_registry_trans; [exact Hcs|]]);
    by unfold same_registry.
Qed.

Lemma consistent_same_registry (w w' : world) :
  same_registry w w' → consistent w → consistent w'.
Proof.
  unfold same_registry, consistent, handles_allocated.
  intros (Hl & _ & Hn & _). by rewrite Hl, Hn.
Qed.

(** ** The entries of the registry hang together *)

Lemma start_world_consistent (drv : option device) (bus : bool) :
  consistent (start_world drv bus).
Proof.
  unfold consistent, handles_allocated. simpl.
  split; [apply NoDup_nil_2|]. intros h Hh. by apply elem_of_nil in Hh.
Qed.

Lemma addPlugin_consistent (e : env) (key : string) (w : world) :
  consistent w → consistent (addPlugin e key w).
Proof.
  intros (Hnodup & Hold).
  split; [|by apply addPlugin_handles_allocated].
  rewrite addPlugin_interfaceList, fmap_app.
  destruct (factory_creates e key); simpl; [|by rewrite app_nil_r].
  apply NoDup_app. split; [done|]. split; [|apply NoDup_singleton].
  intros h Hh Hh'. apply list_elem_of_singleton in Hh'. subst h.
  apply Hold in Hh. lia.
Qed.

Lemma addPlugins_consistent (e : env) (ks : list string) :
  ∀ w : world,
    consistent w → consistent (foldl (λ w key, addPlugin e key w) w ks).
Proof.
  induction ks as [|key ks IH]; intros w Hcons; simpl; [done|].
  by apply IH, addPlugin_consistent.
Qed.

Lemma filter_iff_in {A} (P Q : A → Prop) `{∀ x, Decision (P x)}
  `{∀ x, Decision (Q x)} (l : list A) :
  (∀ x, x ∈ l → P x ↔ Q x) → filter P l = filter Q l.
Proof.
  induction l as [|x l IH]; intros Hiff; [done|].
  assert (Hx : P x ↔ Q x) by (apply Hiff; left).
  assert (Hl : filter P l = filter Q l).
  { apply IH. intros y Hy. apply Hiff. by right. }
  destruct (decide (P x)) as [HP|HP].
  - rewrite !filter_cons_True by tauto. by rewrite Hl.
  - rewrite !filter_cons_False by tauto. done.
Qed.

Lemma removePlugins_consistent (e : env) (keys : list string) (w : world) :
  consistent w → consistent (removePlugins e keys w).
Proof.
  intros (Hnodup & Hold).
  split; [|by apply removePlugins_handles_allocated].
  rewrite removePlugins_interfaceList.
  eapply sublist_NoDup; [exact Hnodup|]. apply fmap_sublist, sublist_filter.
Qed.

(** [writeMountInfo] changes the relay channel and the trace, nothing
    else. *)
Lemma writeMountInfo_frame (e : env) (w : world) :
  let w' := (writeMountInfo e w).2 in
  hasconnected w' = hasconnected w ∧ server w' = server w
  ∧ loaderSlots w' = loaderSlots w ∧ busService w' = busService w
  ∧ same_registry w w'.
Proof. relay_paths e w; by unfold same_registry. Qed.

(** The three steps of [monitorStart] after the relay, on the world the
    relay leaves. *)
Lemma monitorStart_unfold (e : env) (w : world) :
  ∃ w1 : world,
    same_registry w w1 ∧ server w1 = server w
    ∧ loaderSlots w1 = loaderSlots w ∧ hasconnected w1 = hasconnected w
    ∧ busService w1 = busService w
    ∧ driver_set_info w1 = driver_set_info (writeMountInfo e w).2
    ∧ monitorStart e w
      = match server w with
        | Some true => (0, w1)
        | Some false =>
            let w2 := foldl (λ w key, addPlugin e key w) w1 (factory_keys e) in
            let w3 := emit (LoaderConnect pluginRemoved)
                        (set_loaderSlots (loaderSlots w2 ++ [pluginRemoved])
                           w2) in
            let w4 := emit (LoaderConnect pluginModified)
                        (set_loaderSlots (loaderSlots w3 ++ [pluginModified])
                           w3) in
            let w5 := emit (LoaderConnect pluginAdded)
                        (set_loaderSlots (loaderSlots w4 ++ [pluginAdded])
                           w4) in
            (0, emit ServerStart (set_server (Some true) w5))
        | None =>
            let w1 := emit ServerNew (set_server (Some false) w1) in
            let w2 := foldl (λ w key, addPlugin e key w) w1 (factory_keys e) in
            let w3 := emit (LoaderConnect pluginRemoved)
                        (set_loaderSlots (loaderSlots w2 ++ [pluginRemoved])
                           w2) in
            let w4 := emit (LoaderConnect pluginModified)
                        (set_loaderSlots (loaderSlots w3 ++ [pluginModified])
                           w3) in
            let w5 := emit (LoaderConnect pluginAdded)
                        (set_loaderSlots (loaderSlots w4 ++ [pluginAdded])
                           w4) in
            (0, emit ServerStart (set_server (Some true) w5))
        end.
Proof.
  unfold monitorStart.
  pose proof (writeMountInfo_frame e (emit SetMessagePattern
                                        (emit EnterMonitorStart w))) as Hf.
  assert (Hdrv : driver_set_info
                   (writeMountInfo e (emit SetMessagePattern
                                        (emit EnterMonitorStart w))).2
                 = driver_set_info (writeMountInfo e w).2).
  { clear Hf. relay_paths e w; done. }
  destruct (writeMountInfo e (emit SetMessagePattern
                                (emit EnterMonitorStart w))) as [mr w0].
  simpl in Hf, Hdrv. destruct Hf as (Hh & Hs & Hl & Hb & Hreg).
  eexists (if negb (Z.eqb (error_code mr) (error_code Success))
           then emit (qDebug ["write mountinfo failed, should try again latter."]) w0
           else w0).
  destruct (negb (Z.eqb (error_code mr) (error_code Success))); simpl;
    rewrite Hs; split_and!; try done;
    destruct (server w) as [[|]|]; simpl; rewrite ?Hs; done.
Qed.

Lemma monitorStart_consistent (e : env) (w : world) :
  consistent w → consistent (monitorStart e w).2.
Proof.
  intros Hcons.
  destruct (monitorStart_unfold e w) as (w1 & Hreg & _ & _ & _ & _ & _ & ->).
  apply (consistent_same_registry _ _ Hreg) in Hcons.
  destruct (server w) as [[|]|]; simpl; [done| |].
  - eapply consistent_same_registry;
      [|apply (addPlugins_consistent e (factory_keys e) w1 Hcons)].
    by unfold same_registry.
  - eapply consistent_same_registry;
      [|apply (addPlugins_consistent e (factory_keys e)
                 (emit ServerNew (set_server (Some false) w1)))].
    + by unfold same_registry.
    + eapply consistent_same_registry; [|exact Hcons].
      by unfold same_registry.
Qed.

Lemma init_connection_consistent (e : env) (w : world) :
  consistent w → consistent (init_connection e w).2.
Proof.
  intros Hcons. unfold init_connection.
  destruct (hasconnected w); [done|].
  pose proof (backendRun_same_registry e w) as Hreg.
  destruct (backendRun e w) as [r w1]. simpl in Hreg.
  apply (consistent_same_registry _ _ Hreg) in Hcons.
  destruct (Z.eqb r 0); [|done].
  pose proof (monitorStart_consistent e w1 Hcons) as Hcons'.
  destruct (monitorStart e w1) as [r' w2]. simpl in *.
  eapply consistent_same_registry; [|exact Hcons'].
  by unfold same_registry.
Qed.

Lemma perform_consistent (w : world) (ec : env * call) :
  consistent w → consistent (perform w ec).
Proof.
  intros Hcons. destruct ec as [e c]. unfold perform. simpl.
  destruct c as [| | | |key|keys|key|loader keys|loader keys|].
  - by apply init_connection_consistent.
  - eapply consistent_same_registry; [apply backendRun_same_registry|done].
  - by apply monitorStart_consistent.
  - eapply consistent_same_registry; [apply writeMountInfo_same_registry|done].
  - by apply addPlugin_consistent.
  - by apply removePlugins_consistent.
  - by apply addPlugin_consistent.
  - unfold on_pluginRemoved.
    eapply consistent_same_registry;
      [|apply (removePlugins_consistent e keys w Hcons)].
    by unfold same_registry.
  - unfold on_pluginModified.
    pose proof (removePlugins_consistent e keys w Hcons) as Hcons'.
    destruct (reloadLoader e loader) as [reloaded|].
    + apply addPlugins_consistent.
      eapply consistent_same_registry; [|exact Hcons'].
      by unfold same_registry.
    + eapply consistent_same_registry; [|exact Hcons'].
      by unfold same_registry.
  - unfold server_thread_ends. by destruct (server w).
Qed.

Lemma session_consistent (calls : list (env * call)) :
  ∀ w : world, consistent w → consistent (session calls w).
Proof.
  induction calls as [|ec calls IH]; intros w Hcons; simpl; [done|].
  by apply IH, perform_consistent.
Qed.

(** ** The registry in every reachable state *)

(** X2.  In every reachable state no interface is registered twice,
    also when a key is: the entries of the registry have pairwise
    distinct interfaces, each constructed before. *)
Theorem session_interfaces_distinct (calls : list (env * call))
  (drv : option device) (bus : bool) :
  let w := session calls (start_world drv bus) in
  NoDup (interfaceList w).*2
  ∧ ∀ h, h ∈ (interfaceList w).*2 → (h < nextObject w)%nat.
Proof.
  intros w.
  destruct (session_consistent calls _ (start_world_consistent drv bus))
    as (Hnodup & Halloc).
  by split.
Qed.

(** ** More on the loop of [removePlugins] *)

(** X4.  When the thread of every entry that is asked for ends,
    [removePlugins] leaves exactly the entries whose key is not asked
    for, in their order: no entry is skipped, also not the one that
    moves down to the index of an entry just removed. *)
Theorem removePlugins_clears_asked (e : env) (keys : list string)
  (w : world) :
  (∀ v, v ∈ interfaceList w → v.1 ∈ keys → thread_wait e v.2 = true) →
  interfaceList (removePlugins e keys w)
  = filter (λ v, v.1 ∉ keys) (interfaceList w)
  ∧ ∀ k, k ∈ keys → k ∉ live_keys (removePlugins e keys w).
Proof.
  intros Hall.
  assert (Heq : interfaceList (removePlugins e keys w)
                = filter (λ v, v.1 ∉ keys) (interfaceList w)).
  { rewrite removePlugins_interfaceList. apply filter_iff_in.
    intros v Hv. unfold taken_out.
    destruct (decide (v.1 ∈ keys)) as [Hk|Hk].
    - rewrite bool_decide_eq_true_2, (Hall v Hv Hk) by done. simpl. tauto.
    - rewrite bool_decide_eq_false_2 by done. simpl. tauto. }
  split; [done|]. intros k Hk Hin. unfold live_keys in Hin. rewrite Heq in Hin.
  apply list_elem_of_fmap in Hin as [v [-> Hv]].
  by apply list_elem_of_filter in Hv as [Hnot _].
Qed.

Lemma removePlugins_clears_asked_witness :
  let e := willing_env (λ _, true) in
  let w := run [(e, OpAdd "p"); (e, OpAdd "p"); (e, OpAdd "q");
                (e, OpAdd "p")] (start_world None false) in
  interfaceList (removePlugins e ["p"] w) = [("q", 2%nat)]
  ∧ interfaceList (removePlugins e ["p"] w)
    = filter (λ v, v.1 ∉ ["p"]) (interfaceList w).
Proof.
  split; [reflexivity|].
  apply (removePlugins_clears_asked (willing_env (λ _, true)) ["p"]
           (run [(willing_env (λ _, true), OpAdd "p");
                 (willing_env (λ _, true), OpAdd "p");
                 (willing_env (λ _, true), OpAdd "q");
                 (willing_env (λ _, true), OpAdd "p")]
              (start_world None false))).
  reflexivity.
Defined.

(** X5.  A second [removePlugins] with the same keys, the threads
    answering as before, changes nothing in the registry: no entry
    goes, no connection goes, nothing is handed to [deleteLater] a
    second time. *)
Theorem removePlugins_again (e : env) (keys : list string) (w : world) :
  same_registry (removePlugins e keys w)
                (removePlugins e keys (removePlugins e keys w)).
Proof.
  assert (Hnone : ∀ v, v ∈ interfaceList (removePlugins e keys w) →
                       taken_out e keys v = false).
  { intros v Hv. rewrite removePlugins_interfaceList in Hv.
    apply list_elem_of_filter in Hv as [Hkept _].
    by destruct (taken_out e keys v). }
  unfold same_registry.
  rewrite (removePlugins_sweep e keys (removePlugins e keys w)).
  destruct (sweep_none_taken e keys _ 0 (removePlugins e keys w) Hnone)
    as (-> & -> & ->).
  split_and!; try done. apply sweep_frame.
Qed.

Lemma sweep_quit_handles (e : env) (keys : list string)
  (rest : list (string * DASInterface)) :
  ∀ before : list (string * DASInterface),
    quit_handles (sweep_events e keys before rest)
    = (filter (λ v, v.1 ∈ keys) rest).*2.
Proof.
  induction rest as [|v rest IH]; intros before; simpl; [done|].
  entry_cases e keys v.
  - apply bool_decide_eq_true_1 in Hkey.
    rewrite filter_cons_True by done. unfold quit_handles in *. simpl.
    by rewrite IH.
  - apply bool_decide_eq_true_1 in Hkey.
    rewrite filter_cons_True by done. unfold quit_handles in *. simpl.
    by rewrite IH.
  - apply bool_decide_eq_false_1 in Hkey.
    rewrite filter_cons_False by done. apply IH.
Qed.

(** X6.  [removePlugins] asks a thread to quit once for every entry
    whose key is asked for, in the order of the registry, whether or
    not the thread then ends, and asks no other thread. *)
Theorem removePlugins_quits_asked (e : env) (keys : list string)
  (w : world) :
  quit_handles (events_since w (removePlugins e keys w))
  = (filter (λ v, v.1 ∈ keys) (interfaceList w)).*2.
Proof. rewrite removePlugins_events. apply sweep_quit_handles. Qed.

Lemma sweep_removeAt_indices (e : env) (keys : list string)
  (rest : list (string * DASInterface)) :
  ∀ before : list (string * DASInterface),
    Forall (λ j, (length before ≤ j < length before + length rest)%nat)
           (removeAt_indices (sweep_events e keys before rest))
    ∧ length (removeAt_indices (sweep_events e keys before rest))
      = length (filter (λ v, taken_out e keys v) rest).
Proof.
  induction rest as [|v rest IH]; intros before; simpl; [by split|].
  entry_cases e keys v.
  - destruct (IH before) as [Hall Hlen].
    rewrite filter_cons_True by by_taken (taken_out_true e keys v Hkey Hwait).
    unfold removeAt_indices in *. simpl. split; [|by rewrite Hlen].
    constructor; [lia|]. eapply Forall_impl; [exact Hall|].
    simpl. intros j Hj. lia.
  - destruct (IH (before ++ [v])) as [Hall Hlen].
    rewrite length_app in Hall. simpl in Hall.
    rewrite filter_cons_False by by_taken (taken_out_no_wait e keys v Hwait).
    unfold removeAt_indices in *. simpl. split; [|done].
    eapply Forall_impl; [exact Hall|]. simpl. intros j Hj. lia.
  - destruct (IH (before ++ [v])) as [Hall Hlen].
    rewrite length_app in Hall. simpl in Hall.
    rewrite filter_cons_False by by_taken (taken_out_no_key e keys v Hkey).
    split; [|done].
    eapply Forall_impl; [exact Hall|]. simpl. intros j Hj. lia.
Qed.

Lemma length_kept_taken (e : env) (keys : list string)
  (l : list (string * DASInterface)) :
  length l
  = (length (filter (λ v, negb (taken_out e keys v)) l)
     + length (filter (λ v, taken_out e keys v) l))%nat.
Proof.
  induction l as [|v l IH]; [done|].
  destruct (taken_out e keys v) eqn:Htaken.
  - rewrite filter_cons_False by by_taken Htaken.
    rewrite (filter_cons_True (λ v, taken_out e keys v)) by by_taken Htaken.
    simpl. lia.
  - rewrite filter_cons_True by by_taken Htaken.
    rewrite (filter_cons_False (λ v, taken_out e keys v)) by by_taken Htaken.
    simpl. lia.
Qed.

(** X7.  Every [removeAt] of [removePlugins] is given an index inside
    the list, and the list shrinks by one entry for each [removeAt]:
    the entries before and the entries after the call differ by the
    number of [removeAt] calls. *)
Theorem removePlugins_removeAt_in_range (e : env) (keys : list string)
  (w : world) :
  let evs := events_since w (removePlugins e keys w) in
  Forall (λ j, (j < length (interfaceList w))%nat) (removeAt_indices evs)
  ∧ length (interfaceList w)
    = (length (interfaceList (removePlugins e keys w))
       + length (removeAt_indices evs))%nat.
Proof.
  intros evs. subst evs. rewrite removePlugins_events.
  destruct (sweep_removeAt_indices e keys (interfaceList w) [])
    as [Hall Hlen].
  split.
  - eapply Forall_impl; [exact Hall|]. simpl. intros j Hj. lia.
  - rewrite Hlen, removePlugins_interfaceList. apply length_kept_taken.
Qed.

(** X21.  An entry whose key is asked for and whose thread does not end
    within the wait stays in the registry, and a warning with its key
    is logged, whatever the other entries do. *)
Theorem removePlugins_keeps_unfinished (e : env) (keys : list string)
  (w : world) (value : string * DASInterface) :
  value ∈ interfaceList w → value.1 ∈ keys →
  thread_wait e value.2 = false →
  value ∈ interfaceList (removePlugins e keys w)
  ∧ qWarning ["failed on wait thread to quit, key:"; value.1]
      ∈ events_since w (removePlugins e keys w).
Proof.
  intros Hin Hkey Hwait. split.
  - rewrite removePlugins_interfaceList. apply list_elem_of_filter.
    split; [|done]. by_taken (taken_out_no_wait e keys value Hwait).
  - rewrite removePlugins_events. by apply sweep_events_warns.
Qed.

Lemma removePlugins_keeps_unfinished_witness :
  let e := slot_reading_env (λ h, bool_decide (h = 0%nat)) in
  ("q", 1%nat) ∈ interfaceList (removePlugins e ["p"; "q"] two_plugins)
  ∧ qWarning ["failed on wait thread to quit, key:"; "q"]
      ∈ events_since two_plugins (removePlugins e ["p"; "q"] two_plugins).
Proof.
  apply (removePlugins_keeps_unfinished
           (slot_reading_env (λ h, bool_decide (h = 0%nat))) ["p"; "q"]
           two_plugins ("q", 1%nat)).
  - unfold two_plugins. simpl. set_solver.
  - simpl. set_solver.
  - reflexivity.
Defined.

(** X8.  The handler of [pluginRemoved] tells the loader to remove the
    plugin loader once, after the loop of [removePlugins] and whatever
    the loop achieved: an entry of these keys whose thread did not end
    is still registered when its loader is removed. *)
Theorem pluginRemoved_unloads_last (e : env) (loader : QPluginLoader)
  (keys : list string) (w : world) :
  let w' := on_pluginRemoved e loader keys w in
  events_since w w'
  = events_since w (removePlugins e keys w) ++ [LoaderRemove loader]
  ∧ same_registry (removePlugins e keys w) w'
  ∧ ∀ v, v ∈ interfaceList w → v.1 ∈ keys → thread_wait e v.2 = false →
         v ∈ interfaceList w'.
Proof.
  intros w'. subst w'. unfold on_pluginRemoved. split; [|split].
  - rewrite removePlugins_events. apply events_since_app. simpl.
    rewrite removePlugins_trace. by rewrite <- app_assoc.
  - by unfold same_registry.
  - intros v Hv Hkey Hwait. simpl. rewrite removePlugins_interfaceList.
    apply list_elem_of_filter. split; [|done].
    by_taken (taken_out_no_wait e keys v Hwait).
Qed.

(** ** More on the relay *)

(** What a [write] does to the channel: it appends a prefix of the data
    and returns its length, or appends nothing and returns -1. *)
Lemma QFile_write_prefix (d : device) (data : list byte) :
  ∃ extra : list byte,
    (QFile_write d data).2
    = Device (dev_writable d) (dev_policy d) (dev_received d ++ extra)
    ∧ extra `prefix_of` data
    ∧ ((QFile_write d data).1 = Z.of_nat (length extra)
       ∨ ((QFile_write d data).1 = -1 ∧ extra = [])).
Proof.
  unfold QFile_write. destruct d as [wr pol rec]. simpl.
  destruct pol as [|n|]; simpl.
  - exists data. split; [done|]. split; [done|]. by left.
  - exists (take n data). split; [done|]. split; [apply prefix_take|].
    left. by rewrite length_take.
  - exists []. rewrite app_nil_r. split; [done|].
    split; [apply prefix_nil|]. by right.
Qed.

(** X9.  [writeMountInfo] touches nothing but the relay channel and the
    log: the registry, the connections, the server, the loader's
    handlers and the flags are as before.  It never creates the
    channel and never changes what the channel is; what the channel
    has received only grows, by a prefix of the mount table. *)
Theorem writeMountInfo_touches_only_channel (e : env) (w : world) :
  let w' := (writeMountInfo e w).2 in
  hasconnected w' = hasconnected w ∧ server w' = server w
  ∧ loaderSlots w' = loaderSlots w ∧ busService w' = busService w
  ∧ same_registry w w'
  ∧ match driver_set_info w with
    | None => driver_set_info w' = None
    | Some d =>
        ∃ extra : list byte,
          driver_set_info w'
          = Some (Device (dev_writable d) (dev_policy d)
                         (dev_received d ++ extra))
          ∧ (extra = []
             ∨ ∃ data, proc_self_mountinfo e = Some data
                       ∧ extra `prefix_of` data)
    end.
Proof.
  intros w'. subst w'.
  destruct (writeMountInfo_frame e w) as (Hh & Hs & Hl & Hb & Hreg).
  split_and!; try done. clear.
  relay_paths e w; try done.
  all: try solve [destruct (driver_set_info w) as [d0|]; [|done];
                  exists []; rewrite app_nil_r; split; [by destruct d0|by left]].
  all: try solve [exists []; rewrite app_nil_r; split; [|by left];
                  match goal with
                  | d : device, H : dev_writable ?d = false |- _ =>
                      destruct d; simpl in *; by subst
                  end].
  all: match goal with
       | Hw : QFile_write ?d ?data = (_, ?d'),
         Ho : dev_writable ?d = true |- _ =>
           destruct (QFile_write_prefix d data) as (extra & Hd & Hpre & _);
           rewrite Hw, Ho in Hd; simpl in Hd; subst d';
           exists extra; split; [done|]; right; by exists data
       end.
Qed.

(** X10.  A short write is a failure that is not undone: when the
    channel opens but its [write] takes only [n] bytes of a longer
    snapshot, [writeMountInfo] returns [WriteDstFileFail], the channel
    keeps the first [n] bytes it was given, and the function returns
    without closing the channel and without the success message. *)
Theorem writeMountInfo_short_write (e : env) (w : world) (release : string)
  (data : list byte) (d : device) (n : nat) :
  uname e = Some release →
  (3 ≤ length (QString.split "." release))%nat →
  version_gate (ver_x release) (ver_y release) = true →
  proc_self_mountinfo e = Some data →
  driver_set_info w = Some d →
  dev_writable d = true →
  dev_policy d = TakesAtMost n →
  (n < length data)%nat →
  (writeMountInfo e w).1 = WriteDstFileFail
  ∧ driver_set_info (writeMountInfo e w).2
    = Some (Device true (TakesAtMost n) (dev_received d ++ take n data))
  ∧ events_since w (writeMountInfo e w).2
    = [qDebug ["the kernel version: "; release];
       FileOpen mountinfo_path true;
       FileReadAll mountinfo_path (length data);
       FileClose mountinfo_path;
       FileOpen drv_path true;
       FileWrite drv_path data (Z.of_nat n);
       qWarning ["write file "; drv_path; " failed"]].
Proof.
  intros Hname Hcount Hgate Hmount Hdrv Hopen Hpol Hshort.
  unfold writeMountInfo. rewrite Hname.
  rewrite bool_decide_eq_false_2 by lia.
  unfold ver_x, ver_y in Hgate. rewrite Hgate, Hmount. simpl.
  rewrite Hdrv. simpl. rewrite Hopen. unfold QFile_write. rewrite Hpol.
  rewrite Nat.min_l by lia.
  assert (Hne : Z.eqb (Z.of_nat n) (Z.of_nat (length data)) = false)
    by (apply Z.eqb_neq; lia).
  rewrite Hne. simpl. rewrite Hopen. split; [done|]. split; [done|].
  apply events_since_app. simpl. by rewrite <- !app_assoc.
Qed.

Lemma writeMountInfo_short_write_witness :
  let e := example_env (Some "6.1.0") (Some [x31; x32; x33; x0a]%byte)
             (λ _, true) (λ _, true) (λ _, None) [] in
  let w := start_world (Some (Device true (TakesAtMost 2) [])) false in
  (writeMountInfo e w).1 = WriteDstFileFail
  ∧ driver_set_info (writeMountInfo e w).2
    = Some (Device true (TakesAtMost 2) ([] ++ take 2 [x31; x32; x33; x0a]%byte)).
Proof.
  assert (Hcount : (3 ≤ length (QString.split "." "6.1.0"))%nat)
    by (simpl; lia).
  assert (Hshort : (2 < length [x31; x32; x33; x0a]%byte)%nat)
    by (simpl; lia).
  destruct (writeMountInfo_short_write
              (example_env (Some "6.1.0") (Some [x31; x32; x33; x0a]%byte)
                 (λ _, true) (λ _, true) (λ _, None) [])
              (start_world (Some (Device true (TakesAtMost 2) [])) false)
              "6.1.0" [x31; x32; x33; x0a]%byte
              (Device true (TakesAtMost 2) []) 2
              eq_refl Hcount eq_refl eq_refl eq_refl eq_refl eq_refl Hshort)
    as (Hr & Hd & _).
  by split.
Defined.

Lemma split_length (s : string) :
  length (QString.split "." s) = S (dots s).
Proof.
  induction s as [|c rest IH]; [done|]. simpl.
  destruct (Ascii.eqb c "."); simpl; [by rewrite IH|].
  destruct (QString.split "." rest); [discriminate|]. exact IH.
Qed.

(** X11.  [writeMountInfo] rejects a release string as
    [UnrecognizedVersion] exactly when the string has fewer than two
    dots; what stands between the dots plays no part in it. *)
Theorem writeMountInfo_unrecognized_dots (e : env) (w : world) :
  (writeMountInfo e w).1 = UnrecognizedVersion
  ↔ ∃ release, uname e = Some release ∧ (dots release < 2)%nat.
Proof.
  destruct (writeMountInfo_result_conditions e w) as (_ & Hiff & _).
  simpl in Hiff. rewrite Hiff. split.
  - intros (release & Hname & Hlt). exists release. split; [done|].
    rewrite split_length in Hlt. lia.
  - intros (release & Hname & Hlt). exists release. split; [done|].
    rewrite split_length. lia.
Qed.

(** ** More on start-up *)

Lemma same_outside_registry_trans (w1 w2 w3 : world) :
  same_outside_registry w1 w2 → same_outside_registry w2 w3 →
  same_outside_registry w1 w3.
Proof.
  unfold same_outside_registry.
  intros (?&?&?&?&?) (?&?&?&?&?). repeat split; congruence.
Qed.

Lemma addPlugin_outside (e : env) (key : string) (w : world) :
  same_outside_registry w (addPlugin e key w).
Proof.
  unfold addPlugin, DASFactory_create, same_outside_registry.
  by destruct (factory_creates e key).
Qed.

Lemma addPlugins_outside (e : env) (ks : list string) :
  ∀ w : world,
    same_outside_registry w (foldl (λ w key, addPlugin e key w) w ks).
Proof.
  induction ks as [|key ks IH]; intros w; simpl.
  - by unfold same_outside_registry.
  - eapply same_outside_registry_trans; [apply addPlugin_outside|apply IH].
Qed.

Lemma addPlugin_connections (e : env) (key : string) (w : world) :
  connections (addPlugin e key w)
  = connections w ++ flat_map wires (fresh_entries e (nextObject w) [key]).
Proof.
  unfold addPlugin, DASFactory_create. simpl.
  destruct (factory_creates e key); simpl; by rewrite <- ?app_assoc, ?app_nil_r.
Qed.

Lemma addPlugins_connections (e : env) (ks : list string) :
  ∀ w : world,
    connections (foldl (λ w key, addPlugin e key w) w ks)
    = connections w ++ flat_map wires (fresh_entries e (nextObject w) ks).
Proof.
  induction ks as [|key ks IH]; intros w; simpl.
  - by rewrite app_nil_r.
  - rewrite IH, addPlugin_connections, addPlugin_nextObject. simpl.
    destruct (factory_creates e key); simpl; by rewrite <- ?app_assoc, ?app_nil_r.
Qed.

Lemma register_categories_fields (cs : list string) :
  ∀ w : world,
    let w' := foldl (λ w c, emit (RegisterCategoryAppender c)
                              (emit (RegisterCategoryAppender c) w)) w cs in
    same_outside_registry w w' ∧ trace w' = trace w ++ category_events cs.
Proof.
  induction cs as [|c cs IH]; intros w; simpl.
  - split; [by unfold same_outside_registry|by rewrite app_nil_r].
  - destruct (IH (emit (RegisterCategoryAppender c)
                    (emit (RegisterCategoryAppender c) w))) as [Hout Htr].
    split; [exact Hout|]. rewrite Htr. simpl. by rewrite <- !app_assoc.
Qed.

(** X12.  [monitorStart] cannot fail: it returns 0 and leaves the
    server running whatever [writeMountInfo] returned, and touches
    neither the flag nor the bus. *)
Theorem monitorStart_never_fails (e : env) (w : world) :
  (monitorStart e w).1 = 0
  ∧ server (monitorStart e w).2 = Some true
  ∧ hasconnected (monitorStart e w).2 = hasconnected w
  ∧ busService (monitorStart e w).2 = busService w.
Proof.
  destruct (monitorStart_unfold e w)
    as (w1 & Hreg & Hs & Hl & Hh & Hb & Hd & ->).
  destruct (server w) as [[|]|]; simpl; [done| |].
  - destruct (addPlugins_outside e (factory_keys e) w1) as (Hh' & _ & _ & _ & Hb').
    rewrite Hh', Hb'. done.
  - destruct (addPlugins_outside e (factory_keys e)
                (emit ServerNew (set_server (Some false) w1)))
      as (Hh' & _ & _ & _ & Hb').
    rewrite Hh', Hb'. done.
Qed.

(** X13.  On a server that is running, [monitorStart] adds no plugin,
    connects no handler and starts nothing: the registry and the
    loader's handlers are as before; only the relay is run again. *)
Theorem monitorStart_on_running (e : env) (w : world) :
  server w = Some true →
  let w' := (monitorStart e w).2 in
  same_registry w w'
  ∧ loaderSlots w' = loaderSlots w
  ∧ driver_set_info w' = driver_set_info (writeMountInfo e w).2.
Proof.
  intros Hrun w'. subst w'.
  destruct (monitorStart_unfold e w)
    as (w1 & Hreg & Hs & Hl & Hh & Hb & Hd & ->).
  by rewrite Hrun.
Qed.

(** What [monitorStart] adds when the server is not running. *)
Lemma monitorStart_stopped_fields (e : env) (w : world) :
  server w ≠ Some true →
  let w' := (monitorStart e w).2 in
  let created := fresh_entries e (nextObject w) (factory_keys e) in
  interfaceList w' = interfaceList w ++ created
  ∧ created.*1 = filter (λ k, factory_creates e k) (factory_keys e)
  ∧ connections w' = connections w ++ flat_map wires created
  ∧ loaderSlots w' = loaderSlots w ++ loader_handlers.
Proof.
  intros Hrun w' created. subst w' created.
  destruct (monitorStart_unfold e w)
    as (w1 & (Hil & Hc & Hn & _) & Hs & Hl & Hh & Hb & Hd & ->).
  split_and!.
  - destruct (server w) as [[|]|]; [done| |]; simpl;
      by rewrite addPlugins_interfaceList; simpl; rewrite Hil, Hn.
  - apply fresh_entries_keys.
  - destruct (server w) as [[|]|]; [done| |]; simpl;
      by rewrite addPlugins_connections; simpl; rewrite Hc, Hn.
  - destruct (server w) as [[|]|]; [done| |]; simpl.
    + destruct (addPlugins_outside e (factory_keys e) w1) as (_ & _ & Hl' & _).
      rewrite Hl', Hl. by rewrite <- !app_assoc.
    + destruct (addPlugins_outside e (factory_keys e)
                  (emit ServerNew (set_server (Some false) w1)))
        as (_ & _ & Hl' & _).
      rewrite Hl'. simpl. rewrite Hl. by rewrite <- !app_assoc.
Qed.

(** X14.  On a server that is absent or not running, [monitorStart]
    adds, in the order of [DASFactory::keys()], an entry with a new
    interface for every key the factory serves, connects each to the
    three signals, and connects the three handlers of the loader, once
    each and after the plugins. *)
Theorem monitorStart_populates (e : env) (w : world) :
  server w ≠ Some true →
  let w' := (monitorStart e w).2 in
  let created := fresh_entries e (nextObject w) (factory_keys e) in
  interfaceList w' = interfaceList w ++ created
  ∧ created.*1 = filter (λ k, factory_creates e k) (factory_keys e)
  ∧ connections w' = connections w ++ flat_map wires created
  ∧ loaderSlots w' = loaderSlots w ++ loader_handlers.
Proof. apply monitorStart_stopped_fields. Qed.

Lemma monitorStart_on_running_witness :
  server started_world = Some true
  ∧ same_registry started_world (monitorStart working_env started_world).2.
Proof.
  split; [reflexivity|].
  apply (monitorStart_on_running working_env started_world). reflexivity.
Defined.

Lemma monitorStart_populates_witness :
  let w := start_world None false in
  interfaceList (monitorStart working_env w).2
  = interfaceList w
    ++ fresh_entries working_env (nextObject w) (factory_keys working_env).
Proof.
  apply (monitorStart_populates working_env (start_world None false)).
  discriminate.
Defined.

(** X15.  What a second [monitorStart] does depends on the thread of
    the server at that moment, which the first call started.  While the
    thread runs, the second call, in whatever environment, leaves the
    registry and the loader's handlers as the first left them.  Once
    the thread has ended, the second call adds an entry for every key
    the factory serves and connects the three handlers of the loader a
    second time.  Either way the server runs when the call returns. *)
Theorem monitorStart_twice (e e' : env) (w : world) (ended : bool) :
  let w1 := (monitorStart e w).2 in
  let between := if ended then server_thread_ends w1 else w1 in
  let w2 := (monitorStart e' between).2 in
  let created := fresh_entries e' (nextObject w1) (factory_keys e') in
  server w1 = Some true
  ∧ server w2 = Some true
  ∧ if ended
    then interfaceList w2 = interfaceList w1 ++ created
         ∧ connections w2 = connections w1 ++ flat_map wires created
         ∧ loaderSlots w2 = loaderSlots w1 ++ loader_handlers
    else same_registry w1 w2 ∧ loaderSlots w2 = loaderSlots w1.
Proof.
  intros w1 between w2 created.
  assert (Hrun : server w1 = Some true).
  { subst w1.
    destruct (monitorStart_unfold e w) as (w0 & _ & Hs & _ & _ & _ & _ & ->).
    destruct (server w) as [[|]|]; simpl; [by rewrite Hs|done|done]. }
  split; [done|].
  assert (Hafter : server w2 = Some true).
  { subst w2.
    destruct (monitorStart_unfold e' between)
      as (w0 & _ & Hs & _ & _ & _ & _ & ->).
    destruct (server between) as [[|]|]; simpl; [by rewrite Hs|done|done]. }
  split; [done|].
  subst w2 between created. destruct ended.
  - unfold server_thread_ends. rewrite Hrun.
    assert (Hstopped : server (set_server (Some false) w1) ≠ Some true)
      by done.
    destruct (monitorStart_stopped_fields e' _ Hstopped)
      as (Hlist & _ & Hconn & Hslots).
    done.
  - destruct (monitorStart_unfold e' w1)
      as (w0 & Hreg & Hs & Hl & _ & _ & _ & ->).
    rewrite Hrun. simpl. by rewrite Hl.
Qed.

Lemma monitorStart_twice_witness :
  let w1 := (monitorStart working_env (start_world None false)).2 in
  let w2 := (monitorStart working_env (server_thread_ends w1)).2 in
  live_keys w1 = ["p"; "q"]
  ∧ live_keys w2 = ["p"; "q"; "p"; "q"]
  ∧ loaderSlots w2 = loader_handlers ++ loader_handlers.
Proof.
  destruct (monitorStart_twice working_env working_env
              (start_world None false) true) as (_ & _ & _ & _ & Hslots).
  split; [reflexivity|]. split; [reflexivity|]. exact Hslots.
Defined.

(** [backendRun] leaves everything but the bus and the log as it is. *)
Lemma backendRun_fields (e : env) (w : world) :
  let w' := (backendRun e w).2 in
  hasconnected w' = hasconnected w ∧ server w' = server w
  ∧ loaderSlots w' = loaderSlots w
  ∧ driver_set_info w' = driver_set_info w.
Proof.
  unfold backendRun.
  destruct (register_categories_fields (logCategoryList e)
              (emit RegisterAppender
                 (emit RegisterAppender (emit EnterBackendRun w))))
    as [(Hh & Hs & Hl & Hd & Hb) _].
  repeat match goal with
         | |- context [if ?b then _ else _] => destruct b
         end; simpl; by rewrite Hh, Hs, Hl, Hd.
Qed.

(** X16.  [backendRun] returns 0, 2 or 3: 2 when the service name is
    free and cannot be registered, 3 when the name was registered by
    this call and the object path cannot be, 0 otherwise, which
    includes the name being registered already.  It never gives the
    name up: after a 3 the name stays registered.  The registry, the
    server, the flag and the relay channel are not touched. *)
Theorem backendRun_result (e : env) (w : world) :
  let r := (backendRun e w).1 in
  let w' := (backendRun e w).2 in
  (r = 0 ∨ r = 2 ∨ r = 3)
  ∧ (r = 2 ↔ busService w = false ∧ registerService e = false)
  ∧ (r = 3 ↔ busService w = false ∧ registerService e = true
             ∧ registerObject e = false)
  ∧ busService w' = busService w || registerService e
  ∧ same_registry w w'
  ∧ hasconnected w' = hasconnected w ∧ server w' = server w
  ∧ loaderSlots w' = loaderSlots w
  ∧ driver_set_info w' = driver_set_info w.
Proof.
  intros r w'. subst r w'.
  pose proof (backendRun_same_registry e w) as Hreg.
  pose proof (backendRun_fields e w) as Hfields.
  split_and!; try done; try apply Hfields; clear Hreg Hfields.
  all: unfold backendRun;
    destruct (register_categories_fields (logCategoryList e)
                (emit RegisterAppender
                   (emit RegisterAppender (emit EnterBackendRun w))))
      as [(_ & _ & _ & _ & Hb) _];
    simpl in Hb; rewrite Hb;
    destruct (busService w), (registerService e), (registerObject e);
    simpl; rewrite ?Hb; try tauto; try lia;
    try (split; [discriminate|intros (?&?); discriminate]);
    try (split; [discriminate|intros (?&?&?); discriminate]).
Qed.

(** X17.  An [init_connection] that returns -1 has run [backendRun]
    and nothing else: the flag is still unset, so the next call tries
    again, and the server, the loader's handlers, the registry and the
    relay channel are as they were. *)
Theorem init_connection_failure (e : env) (w : world) :
  (init_connection e w).1 = -1 →
  let w' := (init_connection e w).2 in
  w' = (backendRun e w).2
  ∧ hasconnected w' = false
  ∧ server w' = server w ∧ loaderSlots w' = loaderSlots w
  ∧ driver_set_info w' = driver_set_info w
  ∧ same_registry w w'.
Proof.
  unfold init_connection.
  pose proof (backendRun_fields e w) as (Hh & Hs & Hl & Hd).
  pose proof (backendRun_same_registry e w) as Hreg.
  destruct (hasconnected w) eqn:Hflag; simpl; [discriminate|].
  destruct (backendRun e w) as [r w1]. simpl in *.
  destruct (Z.eqb r 0).
  - destruct (monitorStart e w1). simpl. discriminate.
  - simpl. intros _. by rewrite Hh.
Qed.

Lemma init_connection_failure_witness :
  let w := start_world (Some (Device true TakesAll [])) false in
  (init_connection no_object_env w).1 = -1
  ∧ interfaceList (init_connection no_object_env w).2 = []
  ∧ hasconnected (init_connection no_object_env w).2 = false.
Proof.
  split; [reflexivity|]. split; [reflexivity|].
  apply (init_connection_failure no_object_env
           (start_world (Some (Device true TakesAll [])) false)).
  reflexivity.
Defined.

(** X18.  After an [init_connection] that failed because the object
    path could not be registered ([backendRun] returned 3), the service
    name is registered; every later [backendRun] then finds the name
    taken, attempts no registration and returns 0, so the next
    [init_connection] returns 0 with the object path still
    unregistered. *)
Theorem init_connection_after_object_failure (e : env) (w : world) :
  hasconnected w = false →
  (backendRun e w).1 = 3 →
  let w1 := (init_connection e w).2 in
  (init_connection e w).1 = -1
  ∧ busService w1 = true
  ∧ ∀ e' : env,
      (backendRun e' w1).1 = 0
      ∧ events_since w1 (backendRun e' w1).2
        = [EnterBackendRun; RegisterAppender; RegisterAppender]
          ++ category_events (logCategoryList e')
          ++ [qDebug ["deepin-anything-backend is running"]]
      ∧ (init_connection e' w1).1 = 0.
Proof.
  intros Hflag Hthree w1. subst w1.
  assert (Hbus : busService (backendRun e w).2 = true).
  { revert Hthree. unfold backendRun.
    destruct (register_categories_fields (logCategoryList e)
                (emit RegisterAppender
                   (emit RegisterAppender (emit EnterBackendRun w))))
      as [(_ & _ & _ & _ & Hb) _].
    repeat match goal with
           | |- context [if ?b then _ else _] => destruct b
           end; simpl; done. }
  pose proof (backendRun_hasconnected e w) as Hkeep.
  assert (Hinit : init_connection e w = (-1, (backendRun e w).2)).
  { unfold init_connection. rewrite Hflag.
    destruct (backendRun e w) as [r w1]. simpl in *. by subst r. }
  rewrite Hinit. simpl. clear Hinit Hthree.
  remember (backendRun e w).2 as w1 eqn:Hw1. clear Hw1.
  split; [done|]. split; [done|]. intros e'.
  assert (Hrun : (backendRun e' w1).1 = 0
                 ∧ trace (backendRun e' w1).2
                   = trace w1
                     ++ [EnterBackendRun; RegisterAppender; RegisterAppender]
                     ++ category_events (logCategoryList e')
                     ++ [qDebug ["deepin-anything-backend is running"]]).
  { unfold backendRun.
    destruct (register_categories_fields (logCategoryList e')
                (emit RegisterAppender
                   (emit RegisterAppender (emit EnterBackendRun w1))))
      as [(_ & _ & _ & _ & Hb) Htr].
    simpl in Hb, Htr. rewrite Hb, Hbus. simpl. split; [done|].
    rewrite Htr. by rewrite <- !app_assoc. }
  destruct Hrun as [Hzero Htr]. split; [done|].
  split; [apply events_since_app; exact Htr|].
  unfold init_connection. rewrite Hkeep, Hflag.
  destruct (backendRun e' w1) as [r' w2]. simpl in Hzero. subst r'. simpl.
  by destruct (monitorStart e' w2).
Qed.

Lemma init_connection_after_object_failure_witness :
  let w := start_world (Some (Device true TakesAll [])) false in
  (init_connection no_object_env w).1 = -1
  ∧ busService (init_connection no_object_env w).2 = true.
Proof.
  destruct (init_connection_after_object_failure no_object_env
              (start_world (Some (Device true TakesAll [])) false)
              eq_refl eq_refl) as (Hr & Hb & _).
  by split.
Defined.

Lemma backendRun_zero_iff (e : env) (w : world) :
  (backendRun e w).1 = 0
  ↔ busService w = true
    ∨ (registerService e = true ∧ registerObject e = true).
Proof.
  unfold backendRun.
  destruct (register_categories_fields (logCategoryList e)
              (emit RegisterAppender
                 (emit RegisterAppender (emit EnterBackendRun w))))
    as [(_ & _ & _ & _ & Hb) _].
  simpl in Hb. rewrite Hb.
  destruct (busService w), (registerService e), (registerObject e); simpl;
    split; try done; try tauto; intros [?|[? ?]]; discriminate.
Qed.

Lemma init_connection_unset (e : env) (w : world) :
  hasconnected w = false →
  init_connection e w
  = if Z.eqb (backendRun e w).1 0
    then (0, set_hasconnected true
               (monitorStart e (backendRun e w).2).2)
    else (-1, (backendRun e w).2).
Proof.
  intros Hflag. unfold init_connection. rewrite Hflag.
  destruct (backendRun e w) as [r w1]. simpl.
  destruct (Z.eqb r 0); [|done]. by destruct (monitorStart e w1).
Qed.

(** X19.  From the start of the process, [init_connection] returns 0
    exactly when the service name is already on the bus or both
    registrations succeed; the backend is then connected with the
    server running, the three handlers of the loader in place, and the
    registry holding, in the order of [DASFactory::keys()], one entry
    with its own interface for every key the factory serves, each
    connected to the three signals. *)
Theorem init_connection_from_start (e : env) (drv : option device)
  (bus : bool) :
  let r := (init_connection e (start_world drv bus)).1 in
  let w' := (init_connection e (start_world drv bus)).2 in
  (r = 0 ↔ bus = true
           ∨ (registerService e = true ∧ registerObject e = true))
  ∧ (r = 0 →
     hasconnected w' = true
     ∧ server w' = Some true
     ∧ interfaceList w' = fresh_entries e 0 (factory_keys e)
     ∧ live_keys w' = filter (λ k, factory_creates e k) (factory_keys e)
     ∧ connections w' = flat_map wires (interfaceList w')
     ∧ loaderSlots w' = loader_handlers).
Proof.
  intros r w'. subst r w'.
  rewrite (init_connection_unset e (start_world drv bus)) by done.
  pose proof (backendRun_zero_iff e (start_world drv bus)) as Hzero.
  simpl in Hzero.
  destruct (backendRun_fields e (start_world drv bus)) as (_ & Hs & Hl & _).
  destruct (backendRun_same_registry e (start_world drv bus))
    as (Hil & Hc & Hn & _).
  simpl in Hs, Hl, Hil, Hc, Hn.
  destruct (Z.eqb (backendRun e (start_world drv bus)).1 0) eqn:Hr; simpl.
  - apply Z.eqb_eq in Hr. split; [by rewrite <- Hzero|]. intros _.
    assert (Hstopped : server (backendRun e (start_world drv bus)).2
                       ≠ Some true) by (by rewrite Hs).
    destruct (monitorStart_stopped_fields e _ Hstopped)
      as (Hlist & Hkeys & Hconn & Hslots).
    destruct (monitorStart_unfold e (backendRun e (start_world drv bus)).2)
      as (w1 & _ & Hs1 & _ & _ & _ & _ & Heq).
    rewrite Hil, Hn in Hlist. rewrite Hc, Hn in Hconn. rewrite Hl in Hslots.
    rewrite Hn in Hkeys. simpl in Hlist, Hconn, Hslots.
    unfold live_keys.
    cbn [hasconnected server interfaceList connections loaderSlots
         set_hasconnected].
    split_and!; try done.
    + rewrite Heq, Hs. done.
    + by rewrite Hlist, Hkeys.
    + by rewrite Hconn, Hlist.
  - apply Z.eqb_neq in Hr. split; [|done].
    split; [done|]. intros Hok. by apply Hzero in Hok.
Qed.

(** X20.  [fireAnything] returns 0 or -1, and -1 without any effect
    when there is no backend instance.  Once it has returned 0 the
    backend is connected and every later call returns 0 and changes
    nothing. *)
Theorem fireAnything_result (e : env) (backend : option world) :
  let r := (fireAnything e backend).1 in
  let backend' := (fireAnything e backend).2 in
  (r = 0 ∨ r = -1)
  ∧ (backend = None → r = -1 ∧ backend' = None)
  ∧ (r = 0 →
     (∃ w', backend' = Some w' ∧ hasconnected w' = true)
     ∧ ∀ e' : env, fireAnything e' backend' = (0, backend')).
Proof.
  intros r backend'. subst r backend'. unfold fireAnything.
  destruct backend as [w|]; simpl; [|split_and!; (done || auto)].
  destruct (hasconnected w) eqn:Hflag.
  - unfold init_connection. rewrite Hflag. simpl.
    split_and!; [by left|done|]. intros _. split; [by exists w|].
    intros e'. by rewrite Hflag.
  - rewrite (init_connection_unset e w Hflag).
    destruct (Z.eqb (backendRun e w).1 0); simpl.
    + split_and!; [by left|done|]. intros _. split; [by eexists|].
      intros e'. unfold init_connection. done.
    + split_and!; [by right|done|done].
Qed.
